(** * Hdl21: slices and modules

    A shallow embedding of [hdl21/slice.py] and [hdl21/module.py].

    Python integers are [Z]; [%] and [//] are [Z.modulo] and [Z.div], which
    round towards minus infinity exactly as Python's do.  [None]-able fields
    are [option]s.  Exceptions are the [Err] case of [result].  Objects that
    the code mutates or compares by identity live at an address: the slices
    carry their [id], the attributes of a module live in a heap. *)

From Stdlib Require Import ZArith Lia Bool List Ascii.
From stdpp Require Import base option gmap strings.

(** ** Results of fallible code *)

Inductive result (E A : Type) : Type :=
| Ok (a : A)
| Err (e : E).
Arguments Ok {E A} a.
Arguments Err {E A} e.

Definition is_ok {E A} (r : result E A) : bool :=
  match r with Ok _ => true | Err _ => false end.

(** * slice.py *)

(** What [_slice_inner] reads of a slice's parent: its [width]. *)
Module Sliceable.
Record t := { width : Z }.
End Sliceable.

Module SlicePy.
Local Open Scope Z_scope.

(** The exceptions of slice.py: the [ValueError]s of an out-of-bounds index
    and of a zero step, and the [TypeError] of the constructor. *)
Inductive SliceError :=
| OutOfBounds
| ZeroStep
| NotSliceable.

(** [index: Union[int, slice]]; the three fields of a Python [slice] are
    integers or [None]. *)
Inductive Index :=
| Int (i : Z)
| PySlice (start stop step : option Z).

(** A candidate parent, as [is_sliceable] sees it. *)
Inductive PyObj :=
| IsSliceable (p : Sliceable.t)
| Unsliceable.

Record SliceInner := {
  top : Z;
  bot : Z;
  step : option Z;
  width : Z
}.

(** A [Slice] object.  [id] is the object's identity, what Python's [id()]
    returns for it; the three sets hold the identities of their members. *)
Record Slice := {
  id : Z;
  parent : Sliceable.t;
  index : Index;
  _connected_ports : list Z;
  _inner : option SliceInner;
  _slices : list Z;
  _concats : list Z
}.

(** [Slice.__post_init_post_parse__], run on the object allocated at
    [self_id]. *)
Definition Slice__init__ (self_id : Z) (parent : PyObj) (index : Index)
  : result SliceError Slice :=
  match parent with
  | Unsliceable => Err NotSliceable
  | IsSliceable p =>
      Ok {| id := self_id; parent := p; index := index;
            _connected_ports := []; _inner := None;
            _slices := []; _concats := [] |}
  end.

(** CPython's hash of an integer: reduction modulo the Mersenne prime
    [2^61 - 1], keeping the sign, with [-1] mapped to [-2]. *)
Definition _PyHASH_MODULUS : Z := 2 ^ 61 - 1.

Definition hash_int (n : Z) : Z :=
  let h := Z.sgn n * (Z.abs n mod _PyHASH_MODULUS) in
  if h =? -1 then -2 else h.

Definition Slice__eq__ (self other : Slice) : bool :=
  id self =? id other.

Definition Slice__hash__ (self : Slice) : Z :=
  hash_int (id self).

Definition _slice_inner (slize : Slice) : result SliceError SliceInner :=
  let parent := parent slize in
  let index := index slize in
  match index with
  | Int index =>
      if index >=? Sliceable.width parent then Err OutOfBounds
      else
        let index := if index <? 0 then index + Sliceable.width parent else index in
        Ok {| top := index + 1; bot := index; step := None; width := 1 |}
  | PySlice start stop step =>
      let stepsz := match step with None => 1 | Some s => s end in
      if stepsz =? 0 then Err ZeroStep
      else if stepsz <? 0 then
        let top :=
          match start with
          | None => Sliceable.width parent
          | Some start =>
              if start >=? 0 then start + 1
              else Sliceable.width parent + start + 1
          end in
        let bot :=
          match stop with
          | None => 0
          | Some stop =>
              if stop >=? 0 then stop + 1
              else Sliceable.width parent + stop + 1
          end in
        let bot := bot + (top - bot) mod Z.abs stepsz in
        let width := (top - bot) / stepsz in
        Ok {| top := top; bot := bot; step := step; width := width |}
      else
        let top :=
          match stop with
          | None => Sliceable.width parent
          | Some stop =>
              if stop >=? 0 then stop
              else Sliceable.width parent + stop
          end in
        let bot :=
          match start with
          | None => 0
          | Some start =>
              if start >=? 0 then start
              else Sliceable.width parent + start
          end in
        let top := top - (top - bot) mod stepsz in
        let width := (top - bot) / stepsz in
        Ok {| top := top; bot := bot; step := step; width := width |}
  end.

(** [_get_inner]: the slice after the call (its cache filled) and the
    [SliceInner] returned. *)
Definition _get_inner (self : Slice) : result SliceError (Slice * SliceInner) :=
  match _inner self with
  | Some inner => Ok (self, inner)
  | None =>
      match _slice_inner self with
      | Err e => Err e
      | Ok inner =>
          Ok ({| id := id self; parent := parent self; index := index self;
                 _connected_ports := _connected_ports self;
                 _inner := Some inner;
                 _slices := _slices self; _concats := _concats self |},
              inner)
      end
  end.

(** The [width] property of [Slice]: the slice after the access and the
    value read. *)
Definition Slice_width (self : Slice) : result SliceError (Slice * Z) :=
  match _get_inner self with
  | Err e => Err e
  | Ok (self', inner) => Ok (self', width inner)
  end.

(** The step size [_slice_inner] works with. *)
Definition stepsz_of (step : option Z) : Z :=
  match step with None => 1 | Some s => s end.

(** An integer index, or a range whose step is positive or absent. *)
Definition forward_index (idx : Index) : Prop :=
  match idx with
  | Int _ => True
  | PySlice _ _ step => 0 < stepsz_of step
  end.

(** A freshly constructed slice at address [a] over a parent of width [W]. *)
Definition fresh (a W : Z) (idx : Index) : Slice :=
  {| id := a; parent := {| Sliceable.width := W |}; index := idx;
     _connected_ports := []; _inner := None; _slices := []; _concats := [] |}.

(** The other three properties of [Slice]; each goes through [_get_inner]. *)
Definition Slice_top (self : Slice) : result SliceError (Slice * Z) :=
  match _get_inner self with
  | Err e => Err e
  | Ok (self', inner) => Ok (self', top inner)
  end.

Definition Slice_bot (self : Slice) : result SliceError (Slice * Z) :=
  match _get_inner self with
  | Err e => Err e
  | Ok (self', inner) => Ok (self', bot inner)
  end.

Definition Slice_step (self : Slice) : result SliceError (Slice * option Z) :=
  match _get_inner self with
  | Err e => Err e
  | Ok (self', inner) => Ok (self', step inner)
  end.

(** The slice once its parent has changed, say in width: the parent is a
    shared object, the slice's own fields are untouched. *)
Definition with_parent (s : Slice) (p : Sliceable.t) : Slice :=
  {| id := id s; parent := p; index := index s;
     _connected_ports := _connected_ports s; _inner := _inner s;
     _slices := _slices s; _concats := _concats s |}.

(** An index counted from the end when negative. *)
Definition from_end (W x : Z) : Z := if x <? 0 then W + x else x.

(** The bounds a range with a positive step starts from: [start] and [stop]
    counted from the end when negative, 0 and the width when absent. *)
Definition lower (W : Z) (start : option Z) : Z :=
  match start with None => 0 | Some a => from_end W a end.

Definition upper (W : Z) (stop : option Z) : Z :=
  match stop with None => W | Some b => from_end W b end.

End SlicePy.

(** * module.py *)

Module ModulePy.
Local Open Scope string_scope.

(** Sequencing of fallible steps: an exception ends the call. *)
Definition bind {E A B} (r : result E A) (k : A -> result E B) : result E B :=
  match r with
  | Ok a => k a
  | Err e => Err e
  end.

Notation "'let*' x := r 'in' k" := (bind r (fun x => k))
  (at level 10, x name, r at level 200, k at level 200, only parsing).

(** The exceptions of module.py: the [TypeError] of [_attr_type_error], the
    two [RuntimeError]s of [add] (neither name source, both name sources),
    the [RuntimeError] of a protected key, the [AttributeError] of reading
    [name] off a value that has none. *)
Inductive ModuleError :=
| InvalidAttributeType
| NamingConflict
| ProtectedAttribute
| AttributeError.

(** Addresses of heap objects: an attribute is the same attribute exactly
    when it is at the same address. *)
Definition addr := positive.

Inductive Visibility := INTERNAL | PORT.

(** Modelled from the spec: signal.py, instance.py and bundle.py are not
    part of the sources; the spec gives the closed set of attribute
    variants, [Signal] carrying a visibility which is [PORT] or not, each
    with a nullable [name] and an owner back-reference.  [Other] is the class
    of any object outside the set. *)
Inductive PyClass :=
| Signal (vis : Visibility)
| Instance
| InstanceArray
| InstanceBundle
| BundleInstance
| Other.

Record Obj := {
  cls : PyClass;
  name : option string;
  _parent_module : option addr
}.

Definition Heap := addr -> Obj.

(** A Python value as [__setattr__] may receive it ([val: Any]). *)
Inductive PyVal :=
| PyNone
| PyBool (b : bool)
| PyStr (s : string)
| PyRef (a : addr).

Definition truthy (v : PyVal) : bool :=
  match v with
  | PyNone => false
  | PyBool b => b
  | PyStr s => negb (String.eqb s EmptyString)
  | PyRef _ => true
  end.

(** [val.name = n] and [val._parent_module = m] on the object at [a]. *)
Definition set_name (h : Heap) (a : addr) (n : option string) : Heap :=
  fun b =>
    if Pos.eqb b a
    then {| cls := cls (h a); name := n; _parent_module := _parent_module (h a) |}
    else h b.

Definition set_parent_module (h : Heap) (a : addr) (m : addr) : Heap :=
  fun b =>
    if Pos.eqb b a
    then {| cls := cls (h a); name := name (h a); _parent_module := Some m |}
    else h b.

(** A [Module] object.  The seven dictionaries are keyed by whatever
    [val.name] is, a string or [None].  [attrs] holds the attributes stored
    by the plain [object.__setattr__]: [name] and the underscore-prefixed
    ones. *)
Record Module := {
  mod_addr : addr;
  ports : gmap (option string) addr;
  signals : gmap (option string) addr;
  instances : gmap (option string) addr;
  instarrays : gmap (option string) addr;
  instbundles : gmap (option string) addr;
  bundles : gmap (option string) addr;
  namespace : gmap (option string) addr;
  attrs : gmap string PyVal
}.

Definition set_ports (f : gmap (option string) addr -> gmap (option string) addr) (m : Module) : Module :=
  {| mod_addr := mod_addr m; ports := f (ports m); signals := signals m;
     instances := instances m; instarrays := instarrays m;
     instbundles := instbundles m; bundles := bundles m;
     namespace := namespace m; attrs := attrs m |}.

Definition set_signals (f : gmap (option string) addr -> gmap (option string) addr) (m : Module) : Module :=
  {| mod_addr := mod_addr m; ports := ports m; signals := f (signals m);
     instances := instances m; instarrays := instarrays m;
     instbundles := instbundles m; bundles := bundles m;
     namespace := namespace m; attrs := attrs m |}.

Definition set_instances (f : gmap (option string) addr -> gmap (option string) addr) (m : Module) : Module :=
  {| mod_addr := mod_addr m; ports := ports m; signals := signals m;
     instances := f (instances m); instarrays := instarrays m;
     instbundles := instbundles m; bundles := bundles m;
     namespace := namespace m; attrs := attrs m |}.

Definition set_instarrays (f : gmap (option string) addr -> gmap (option string) addr) (m : Module) : Module :=
  {| mod_addr := mod_addr m; ports := ports m; signals := signals m;
     instances := instances m; instarrays := f (instarrays m);
     instbundles := instbundles m; bundles := bundles m;
     namespace := namespace m; attrs := attrs m |}.

Definition set_instbundles (f : gmap (option string) addr -> gmap (option string) addr) (m : Module) : Module :=
  {| mod_addr := mod_addr m; ports := ports m; signals := signals m;
     instances := instances m; instarrays := instarrays m;
     instbundles := f (instbundles m); bundles := bundles m;
     namespace := namespace m; attrs := attrs m |}.

Definition set_bundles (f : gmap (option string) addr -> gmap (option string) addr) (m : Module) : Module :=
  {| mod_addr := mod_addr m; ports := ports m; signals := signals m;
     instances := instances m; instarrays := instarrays m;
     instbundles := instbundles m; bundles := f (bundles m);
     namespace := namespace m; attrs := attrs m |}.

Definition set_namespace (f : gmap (option string) addr -> gmap (option string) addr) (m : Module) : Module :=
  {| mod_addr := mod_addr m; ports := ports m; signals := signals m;
     instances := instances m; instarrays := instarrays m;
     instbundles := instbundles m; bundles := bundles m;
     namespace := f (namespace m); attrs := attrs m |}.

(** [super().__setattr__(key, val)]: a plain store in the object, for the
    keys stored in [attrs], that is [name] and the underscore-prefixed ones.
    The seven dictionaries are record fields of their own: in the source they
    are bound by this same call, but only while [__init__] runs, and the
    model starts from the module [__init__] returns. *)
Definition object__setattr__ (self : Module) (key : string) (val : PyVal) : Module :=
  {| mod_addr := mod_addr self; ports := ports self; signals := signals self;
     instances := instances self; instarrays := instarrays self;
     instbundles := instbundles self; bundles := bundles self;
     namespace := namespace self; attrs := <[key := val]> (attrs self) |}.

(** [Module.__init__], run on the object allocated at [self_addr];
    [src] is what the [source_info] collaborator returns. *)
Definition Module__init__ (self_addr : addr) (name : option string) (src : PyVal) : Module :=
  {| mod_addr := self_addr;
     ports := ∅; signals := ∅; instances := ∅; instarrays := ∅;
     instbundles := ∅; bundles := ∅; namespace := ∅;
     attrs :=
       <["_initialized" := PyBool true]>
       (<["_updated" := PyBool true]>
       (<["_moduledata" := PyNone]>
       (<["_importpath" := PyNone]>
       (<["_source_info" := src]>
       (<["name" := match name with Some s => PyStr s | None => PyNone end]> ∅))))) |}.

(** The class of a value: the primitive values are outside the HDL classes. *)
Definition class_of (h : Heap) (val : PyVal) : PyClass :=
  match val with
  | PyRef a => cls (h a)
  | _ => Other
  end.

(** [isinstance(val, (Signal, _Instance, BundleInstance))], [_Instance] being
    the base of [Instance], [InstanceArray] and [InstanceBundle]. *)
Definition _is_module_attr (h : Heap) (val : PyVal) : bool :=
  match class_of h val with
  | Other => false
  | _ => true
  end.

(** [_attr_type_error] raises a [TypeError] whatever the value is; called
    with its one argument by [_add], it raises a [TypeError] as well. *)
Definition _attr_type_error {A} (m : Module) (val : PyVal) : result ModuleError A :=
  Err InvalidAttributeType.

Definition _assert_module_attr (h : Heap) (m : Module) (val : PyVal) : result ModuleError unit :=
  if negb (_is_module_attr h val) then _attr_type_error m val else Ok tt.

(** The object a value refers to, for [val.name]. *)
Definition as_ref (val : PyVal) : result ModuleError addr :=
  match val with
  | PyRef a => Ok a
  | _ => Err AttributeError
  end.

Definition _add (h : Heap) (module : Module) (val : PyVal)
  : result ModuleError (Heap * Module * PyVal) :=
  match val with
  | PyRef a =>
      let key := name (h a) in
      let* module' :=
        match cls (h a) with
        | Signal vis =>
            let module := set_namespace <[key := a]> module in
            Ok (match vis with
                | PORT => set_ports <[key := a]> module
                | INTERNAL => set_signals <[key := a]> module
                end)
        | Instance =>
            Ok (set_namespace <[key := a]> (set_instances <[key := a]> module))
        | InstanceArray =>
            Ok (set_namespace <[key := a]> (set_instarrays <[key := a]> module))
        | InstanceBundle =>
            Ok (set_namespace <[key := a]> (set_instbundles <[key := a]> module))
        | BundleInstance =>
            Ok (set_namespace <[key := a]> (set_bundles <[key := a]> module))
        | Other => _attr_type_error module val
        end in
      Ok (set_parent_module h a (mod_addr module), module', val)
  | _ => _attr_type_error module val
  end.

Definition add (h : Heap) (self : Module) (val : PyVal) (name_arg : option string)
  : result ModuleError (Heap * Module * PyVal) :=
  let* _ := _assert_module_attr h self val in
  let* a := as_ref val in
  match name_arg, name (h a) with
  | None, None => Err NamingConflict
  | Some _, Some _ => Err NamingConflict
  | Some n, None => _add (set_name h a (Some n)) self val
  | None, Some _ => _add h self val
  end.

(** [Module.get]: [None] is Python's [None]. *)
Definition get (self : Module) (name : string) : option addr :=
  namespace self !! Some name.

Definition startswith_underscore (key : string) : bool :=
  match key with
  | String "_"%char _ => true
  | _ => false
  end.

Definition banned : list string :=
  ["ports"; "signals"; "instances"; "instarrays"; "instbundles"; "bundles";
   "namespace"; "add"; "get"].

(** [getattr(self, "_initialized", False)], as a condition. *)
Definition getattr_initialized (self : Module) : bool :=
  match attrs self !! "_initialized" with
  | Some v => truthy v
  | None => false
  end.

(** [Module.__setattr__].  In the bootstrap branch the value goes to
    [attrs]; the seven dictionaries are rebound by that branch only inside
    [__init__], whose outcome is [Module__init__].  The definition follows
    the source on a module whose [_initialized] is set, and for [name] and
    the underscore-prefixed keys on any module; what the source does with
    one of the seven dictionary names on a module whose [_initialized] is
    unset (it rebinds the dictionary) is outside it, and the statements
    below that speak of assignments carry the hypothesis that the module is
    initialised. *)
Definition __setattr__ (h : Heap) (self : Module) (key : string) (val : PyVal)
  : result ModuleError (Heap * Module) :=
  if startswith_underscore key || negb (getattr_initialized self)
  then Ok (h, object__setattr__ self key val)
  else if bool_decide (key ∈ banned) then Err ProtectedAttribute
  else if String.eqb key "name" then Ok (h, object__setattr__ self key val)
  else
    let* _ := _assert_module_attr h self val in
    let* a := as_ref val in
    let* r := _add (set_name h a (Some key)) self val in
    Ok (r.1.1, r.1.2).

(** ** Sequences of operations *)

Inductive Op :=
| OpAdd (val : PyVal) (name_arg : option string)
| OpSetattr (key : string) (val : PyVal).

Definition run_op (h : Heap) (m : Module) (op : Op) : result ModuleError (Heap * Module) :=
  match op with
  | OpAdd val name_arg => let* r := add h m val name_arg in Ok (r.1.1, r.1.2)
  | OpSetattr key val => __setattr__ h m key val
  end.

(** An attribute assignment that is routed: on an initialised module, with
    a key that is neither private, nor protected, nor [name]. *)
Definition routed_key (key : string) : bool :=
  negb (startswith_underscore key)
  && negb (bool_decide (key ∈ banned))
  && negb (String.eqb key "name").

(** The states a module goes through: constructed empty, then operated on;
    between operations the program may rename the objects of the heap or
    repoint their owner, not change their class or visibility.  Attribute
    assignments are those made once the constructor has returned. *)
Inductive reachable : Heap -> Module -> Prop :=
| reach_init h a name src :
    reachable h (Module__init__ a name src)
| reach_heap h h' m :
    reachable h m ->
    (forall a, cls (h' a) = cls (h a)) ->
    reachable h' m
| reach_add h m val name_arg h' m' r :
    reachable h m ->
    add h m val name_arg = Ok (h', m', r) ->
    reachable h' m'
| reach_setattr h m key val h' m' :
    reachable h m ->
    getattr_initialized m = true ->
    __setattr__ h m key val = Ok (h', m') ->
    reachable h' m'.

(** The six sub-collections. *)
Inductive Coll := Ports | Signals | Instances | Instarrays | Instbundles | Bundles.

Definition coll (c : Coll) (m : Module) : gmap (option string) addr :=
  match c with
  | Ports => ports m
  | Signals => signals m
  | Instances => instances m
  | Instarrays => instarrays m
  | Instbundles => instbundles m
  | Bundles => bundles m
  end.

(** The routing table, as the specification words it. *)
Definition routing_table (c : PyClass) : option Coll :=
  match c with
  | Signal PORT => Some Ports
  | Signal INTERNAL => Some Signals
  | Instance => Some Instances
  | InstanceArray => Some Instarrays
  | InstanceBundle => Some Instbundles
  | BundleInstance => Some Bundles
  | Other => None
  end.

(** [op] attaches the attribute at [v] under the name [n]: [add] with
    exactly one name source, or a routed assignment to [n]. *)
Definition attaches (h : Heap) (m : Module) (op : Op) (v : addr) (n : string) : Prop :=
  match op with
  | OpAdd val name_arg =>
      val = PyRef v /\ _is_module_attr h val = true /\
      ((name_arg = Some n /\ name (h v) = None) \/
       (name_arg = None /\ name (h v) = Some n))
  | OpSetattr key val =>
      val = PyRef v /\ _is_module_attr h val = true /\
      key = n /\ routed_key n = true /\ getattr_initialized m = true
  end.

(** An operation on a constructed module: an attribute assignment is made
    once [__init__] has set [_initialized]; before that, the bootstrap branch
    of [__setattr__] is what binds the seven dictionaries themselves. *)
Definition on_constructed (m : Module) (op : Op) : Prop :=
  match op with
  | OpAdd _ _ => True
  | OpSetattr _ _ => getattr_initialized m = true
  end.

(** What a successful [_add] does to the module: the value goes under its
    name into one sub-collection and into [namespace]. *)
Definition insert_coll (c : Coll) (key : option string) (a : addr) (m : Module) : Module :=
  match c with
  | Ports => set_ports <[key := a]> m
  | Signals => set_signals <[key := a]> m
  | Instances => set_instances <[key := a]> m
  | Instarrays => set_instarrays <[key := a]> m
  | Instbundles => set_instbundles <[key := a]> m
  | Bundles => set_bundles <[key := a]> m
  end.

Definition attach (c : Coll) (key : option string) (a : addr) (m : Module) : Module :=
  set_namespace <[key := a]> (insert_coll c key a m).

#[global] Instance Coll_eq_dec : EqDecision Coll.
Proof. solve_decision. Defined.

(** Every entry of a sub-collection is of the class and visibility routed
    to that sub-collection. *)
Definition routed_consistent (h : Heap) (m : Module) : Prop :=
  forall c k a, coll c m !! k = Some a -> routing_table (cls (h a)) = Some c.

(** Every key of a sub-collection is a key of [namespace]. *)
Definition keys_in_namespace (m : Module) : Prop :=
  forall c k a, coll c m !! k = Some a -> is_Some (namespace m !! k).

(** Every entry of [namespace] is an entry of some sub-collection. *)
Definition namespace_covered (m : Module) : Prop :=
  forall k a, namespace m !! k = Some a -> exists c, coll c m !! k = Some a.

Definition inv (h : Heap) (m : Module) : Prop :=
  routed_consistent h m /\ keys_in_namespace m /\ namespace_covered m.

(** A heap for the examples: an internal signal named [y] at 1, an unnamed
    instance at 2, an unnamed internal signal at 3, any other object
    elsewhere. *)
Definition example_heap : Heap :=
  fun a =>
    match a with
    | 1%positive => {| cls := Signal INTERNAL; name := Some "y"; _parent_module := None |}
    | 2%positive => {| cls := Instance; name := None; _parent_module := None |}
    | 3%positive => {| cls := Signal INTERNAL; name := None; _parent_module := None |}
    | _ => {| cls := Other; name := None; _parent_module := None |}
    end.

Definition example_module : Module :=
  Module__init__ 100%positive (Some "M") PyNone.

(** ** ExternalModule and ExternalModuleCall *)

(** A class, identified by its name; [ancestors] is the rest of its method
    resolution order, so that [isinstance] is membership in [mro].
    Modelled from the spec: params.py is not part of the sources;
    [paramclass] tells whether the class is a recognised structured-parameter
    type, which is what [isparamclass] answers. *)
Record PyType := {
  tname : string;
  ancestors : list string;
  paramclass : bool
}.

Definition mro (T : PyType) : list string := tname T :: ancestors T.

Definition object_ : PyType :=
  {| tname := "object"; ancestors := []; paramclass := false |}.

Definition dict : PyType :=
  {| tname := "dict"; ancestors := ["object"]; paramclass := false |}.

(** The default [paramtype], a paramclass without fields. *)
(** [collections.OrderedDict], a subclass of [dict]. *)
Definition OrderedDict : PyType :=
  {| tname := "OrderedDict"; ancestors := ["dict"; "object"]; paramclass := false |}.

Definition HasNoParams : PyType :=
  {| tname := "HasNoParams"; ancestors := ["object"]; paramclass := true |}.

(** A parameter value: an object and its runtime type [type(params)]. *)
Record PyInst := {
  type_ : PyType;
  value_addr : addr
}.

(** [isinstance(obj, T)]: [T] is in the method resolution order of the
    object's type. *)
Definition isinstance (obj : PyInst) (T : PyType) : bool :=
  bool_decide (tname T ∈ mro (type_ obj)).

Inductive ExternalError :=
| InvalidParamType
| InvalidPort
| ParamTypeMismatch.

(** A port of an external module, a Signal. *)
Record Port := {
  port_name : option string;
  port_vis : Visibility
}.

Record ExternalModule := {
  em_name : string;
  port_list : list Port;
  paramtype : PyType;
  desc : option string;
  domain : option string
}.

(** [ExternalModule.__post_init__]; the typing alias [Dict] stands for the
    class [dict] it checks instances against. *)
Definition ExternalModule__post_init__ (self : ExternalModule) : result ExternalError unit :=
  if negb (paramclass (paramtype self)) && negb (String.eqb (tname (paramtype self)) "dict")
  then Err InvalidParamType
  else Ok tt.

Fixpoint check_ports (ps : list Port) : result ExternalError unit :=
  match ps with
  | [] => Ok tt
  | p :: ps =>
      match port_name p with
      | None => Err InvalidPort
      | Some n =>
          if String.eqb n EmptyString then Err InvalidPort
          else
            match port_vis p with
            | PORT => check_ports ps
            | INTERNAL => Err InvalidPort
            end
      end
  end.

Definition ExternalModule__post_init_post_parse__ (self : ExternalModule)
  : result ExternalError unit :=
  check_ports (port_list self).

Record ExternalModuleCall := {
  module : ExternalModule;
  params : PyInst
}.

Definition ExternalModuleCall__post_init_post_parse__ (self : ExternalModuleCall)
  : result ExternalError unit :=
  if negb (isinstance (params self) (paramtype (module self)))
  then Err ParamTypeMismatch
  else Ok tt.

(** Construction: the fields are stored, then validated; the call exists
    only if the validation raises nothing. *)
Definition ExternalModuleCall__init__ (module : ExternalModule) (params : PyInst)
  : result ExternalError ExternalModuleCall :=
  let self := {| module := module; params := params |} in
  let* _ := ExternalModuleCall__post_init_post_parse__ self in
  Ok self.

(** An external module taking a [dict] of parameters, and a parameter value
    which is an [OrderedDict]. *)
Definition example_external : ExternalModule :=
  {| em_name := "Ext"; port_list := []; paramtype := dict;
     desc := None; domain := None |}.

Definition example_params : PyInst :=
  {| type_ := OrderedDict; value_addr := 7%positive |}.

(** ** Attribute retrieval *)

Section Getattr.

(** [object.__getattribute__(self, key)], the plain lookup in the object
    and its class, whose outcome (a value or an [AttributeError]) is of a
    type [A]; [attribute] is how an attribute of the namespace is returned
    in that type. *)
Context {A : Type}.
Variable object__getattribute__ : Module -> string -> A.
Variable attribute : addr -> A.

Definition __getattr__ (self : Module) (key : string) : A :=
  if startswith_underscore key then object__getattribute__ self key
  else
    match namespace self !! Some key with
    | Some a => attribute a
    | None => object__getattribute__ self key
    end.

End Getattr.

(** ** The [module] decorator *)

Definition startswith_dunder (key : string) : bool :=
  match key with
  | String "_"%char (String "_"%char _) => true
  | _ => false
  end.

(** The [RuntimeError] of a class body that inherits, or the exception of
    an attribute assignment. *)
Inductive DecoratorError :=
| InvalidInheritance
| AssignmentFailed (e : ModuleError).

(** The loop over [cls.__dict__.items()]; the dictionaries [dunders] and
    [unders] it fills are dropped when [module] returns. *)
Fixpoint module_items (h : Heap) (module : Module) (items : list (string * PyVal))
  : result DecoratorError (Heap * Module) :=
  match items with
  | [] => Ok (h, module)
  | (key, val) :: items =>
      if startswith_dunder key then module_items h module items
      else if startswith_underscore key then module_items h module items
      else
        match __setattr__ h module key val with
        | Err e => Err (AssignmentFailed e)
        | Ok (h, module) => module_items h module items
        end
  end.

(** [module(cls)]: [cls_name] is [cls.__name__], [bases] names the classes
    of [cls.__bases__], [cls_dict] lists [cls.__dict__] in order; the new
    [Module] is allocated at [self_addr]. *)
Definition module_decorator (h : Heap) (self_addr : addr) (src : PyVal)
    (cls_name : string) (bases : list string) (cls_dict : list (string * PyVal))
  : result DecoratorError (Heap * Module) :=
  if negb (bool_decide (bases = ["object"])) then Err InvalidInheritance
  else module_items h (Module__init__ self_addr (Some cls_name) src) cls_dict.

(** A binding of a class body that the decorator assigns. *)
Definition public (item : string * PyVal) : bool :=
  negb (startswith_underscore item.1).

(** A binding that an attribute assignment accepts: its key is not
    protected, and it is [name] or its value is a module attribute. *)
Definition acceptable (h : Heap) (item : string * PyVal) : Prop :=
  (item.1 ∉ banned) /\ (item.1 = "name" \/ _is_module_attr h item.2 = true).

(** ** Qualified names, equality and hashing *)

(** What [_qualname] and the comparison methods read of a [Module] or an
    [ExternalModule]: its [name], its [_importpath], and the [__name__] of
    [_source_info.pymodule] when there is one. *)
Module Named.
Record t := {
  name : option string;
  _importpath : option (list string);
  pymodule : option string
}.
End Named.

Definition _qualname (mod_ : Named.t) : option string :=
  match Named._importpath mod_ with
  | Some path => Some (String.concat "." path)
  | None =>
      match Named.name mod_ with
      | None => None
      | Some n =>
          match Named.pymodule mod_ with
          | None => Some n
          | Some py => Some (String.append py (String.append "." n))
          end
      end
  end.

(** The [RuntimeError] of comparing, hashing or pickling an unnamed module. *)
Inductive CompareError := UnnamedEntity.

(** The right operand of [==]: a module or anything else. *)
Inductive Operand :=
| AModule (m : Named.t)
| NotAModule.

(** [Module.__eq__]; [Ok None] is [NotImplemented]. *)
Definition Module__eq__ (self : Named.t) (other : Operand)
  : result CompareError (option bool) :=
  match other with
  | NotAModule => Ok None
  | AModule other =>
      match Named.name self, Named.name other with
      | Some _, Some _ =>
          Ok (Some (bool_decide (_qualname self = _qualname other)))
      | _, _ => Err UnnamedEntity
      end
  end.

Section Hashing.

(** Python's [hash] on what [_qualname] returns. *)
Variable hash : option string -> Z.

Definition Module__hash__ (self : Named.t) : result CompareError Z :=
  match Named.name self with
  | None => Err UnnamedEntity
  | Some _ => Ok (hash (_qualname self))
  end.

End Hashing.

Definition Module__getstate__ (self : Named.t) : result CompareError (option string) :=
  match Named.name self with
  | None => Err UnnamedEntity
  | Some _ => Ok (_qualname self)
  end.

(** ** The ports of an external module *)

(** The [ports] property: the dictionary comprehension over [port_list],
    where a later port replaces an earlier one of the same name. *)
Definition ExternalModule_ports (self : ExternalModule) : gmap (option string) Port :=
  foldl (fun d p => <[port_name p := p]> d) ∅ (port_list self).

(** A port that passes [__post_init_post_parse__]. *)
Definition valid_port (p : Port) : Prop :=
  (exists n, port_name p = Some n /\ n <> EmptyString) /\ port_vis p = PORT.

End ModulePy.

(** * Properties of slice resolution *)

Module SliceProofs.
Import SlicePy.
Local Open Scope Z_scope.

Ltac flip_tests :=
  repeat match goal with
    | H : (_ >=? _) = true |- _ => apply Z.geb_le in H
    | H : (_ >=? _) = false |- _ => rewrite Z.geb_leb in H; apply Z.leb_gt in H
    | H : (_ <? _) = true |- _ => apply Z.ltb_lt in H
    | H : (_ <? _) = false |- _ => apply Z.ltb_ge in H
    | H : (_ =? _) = true |- _ => apply Z.eqb_eq in H
    | H : (_ =? _) = false |- _ => apply Z.eqb_neq in H
    end.

(** The constructor leaves the slice unresolved and keeps its arguments. *)
Lemma Slice__init__fresh (a : Z) (p : Sliceable.t) (idx : Index) :
  Slice__init__ a (IsSliceable p) idx = Ok (fresh a (Sliceable.width p) idx).
Proof. destruct p; reflexivity. Qed.

(** Resolution fails exactly on an integer index at or above the width and
    on a zero step. *)
Lemma _slice_inner_total (s : Slice) :
  match index s with
  | Int i =>
      if i >=? Sliceable.width (parent s)
      then _slice_inner s = Err OutOfBounds
      else is_ok (_slice_inner s) = true
  | PySlice _ _ step =>
      if stepsz_of step =? 0
      then _slice_inner s = Err ZeroStep
      else is_ok (_slice_inner s) = true
  end.
Proof.
  unfold _slice_inner, stepsz_of.
  destruct (index s) as [i | start stop step].
  - destruct (i >=? _); reflexivity.
  - destruct (match step with Some s0 => s0 | None => 1 end =? 0); [reflexivity |].
    destruct (_ <? 0); reflexivity.
Qed.

(** Subtracting the remainder leaves a multiple of the divisor. *)
Lemma aligned_span (d m : Z) : 0 < m -> (d - d mod m) mod m = 0.
Proof.
  intros Hm.
  rewrite (Z.div_mod d m) at 1 by lia.
  replace (m * (d / m) + d mod m - d mod m) with ((d / m) * m) by lia.
  apply Z.mod_mul. lia.
Qed.

(** What a resolved range slice holds: the span [top - bot] is a multiple of
    the step, and [width] is the span divided by the signed step. *)
Lemma range_width_signed (s : Slice) (start stop step : option Z) (r : SliceInner) :
  index s = PySlice start stop step ->
  _slice_inner s = Ok r ->
  (top r - bot r) mod Z.abs (stepsz_of step) = 0 /\
  width r = (top r - bot r) / stepsz_of step /\
  width r * stepsz_of step = top r - bot r.
Proof.
  intros Hidx. unfold _slice_inner. rewrite Hidx.
  fold (stepsz_of step).
  destruct (stepsz_of step =? 0) eqn:E0; [discriminate |].
  destruct (stepsz_of step <? 0) eqn:Eneg; intros [= <-]; cbn [top bot width];
    flip_tests.
  - set (t := match start with Some _ => _ | None => _ end).
    set (b := match stop with Some _ => _ | None => _ end).
    assert (Hal : (t - (b + (t - b) mod Z.abs (stepsz_of step)))
                    mod Z.abs (stepsz_of step) = 0).
    { replace (t - (b + (t - b) mod Z.abs (stepsz_of step)))
        with ((t - b) - (t - b) mod Z.abs (stepsz_of step)) by lia.
      apply aligned_span. lia. }
    split; [exact Hal |]. split; [reflexivity |].
    apply Z.mod_divide in Hal; [| lia].
    destruct Hal as [q Hq]. rewrite Hq.
    rewrite Z.abs_neq by lia.
    replace (q * - stepsz_of step) with (- q * stepsz_of step) by lia.
    rewrite Z.div_mul by lia. reflexivity.
  - set (t := match stop with Some _ => _ | None => _ end).
    set (b := match start with Some _ => _ | None => _ end).
    assert (Hpos : 0 < stepsz_of step) by lia.
    assert (Hal : (t - (t - b) mod stepsz_of step - b) mod stepsz_of step = 0).
    { replace (t - (t - b) mod stepsz_of step - b)
        with ((t - b) - (t - b) mod stepsz_of step) by lia.
      apply aligned_span. lia. }
    rewrite Z.abs_eq by lia.
    split; [exact Hal |]. split; [reflexivity |].
    pose proof (Z.div_mod (t - (t - b) mod stepsz_of step - b)
                  (stepsz_of step) ltac:(lia)) as Hdm.
    lia.
Qed.

(** With a negative step the width is the opposite of the number of steps in
    the span. *)
Lemma negative_step_width (s : Slice) (start stop step : option Z) (r : SliceInner) :
  index s = PySlice start stop step ->
  stepsz_of step < 0 ->
  _slice_inner s = Ok r ->
  width r = - ((top r - bot r) / Z.abs (stepsz_of step)).
Proof.
  intros Hidx Hneg Hr.
  destruct (range_width_signed s start stop step r Hidx Hr) as (_ & _ & Hmul).
  rewrite <- Hmul. rewrite Z.abs_neq by lia.
  replace (width r * stepsz_of step) with (- width r * - stepsz_of step) by lia.
  rewrite Z.div_mul by lia. lia.
Qed.

(** With a positive or absent step the width is the number of steps in the
    span, an exact division. *)
Lemma positive_step_width (s : Slice) (start stop step : option Z) (r : SliceInner) :
  index s = PySlice start stop step ->
  0 < stepsz_of step ->
  _slice_inner s = Ok r ->
  width r = (top r - bot r) / Z.abs (stepsz_of step) /\
  (top r - bot r) mod Z.abs (stepsz_of step) = 0.
Proof.
  intros Hidx Hpos Hr.
  destruct (range_width_signed s start stop step r Hidx Hr) as (Hal & Hw & _).
  rewrite Z.abs_eq in * by lia. auto.
Qed.

(** C1, at its own example: over a parent of width 8, [slice(6, 2, -1)]
    resolves to top 7 and bot 3, and the width stored is [-4], the span
    divided by the step [-1], where the span divided by the absolute value of
    the step is 4. *)
Theorem negative_step_example (a : Z) :
  _slice_inner (fresh a 8 (PySlice (Some 6) (Some 2) (Some (-1))))
  = Ok {| top := 7; bot := 3; step := Some (-1); width := -4 |}
  /\ (7 - 3) / Z.abs (-1) = 4.
Proof. split; reflexivity. Qed.

(** C4, refuted as stated: over a parent of width 8, [slice(6, 2)], whose
    step is absent, resolves and caches the width [-4]. *)
Lemma reversed_range_width_negative :
  let s := fresh 1 8 (PySlice (Some 6) (Some 2) None) in
  let r := {| top := 2; bot := 6; step := None; width := -4 |} in
  exists s', _get_inner s = Ok (s', r) /\ _inner s' = Some r /\ width r < 0.
Proof.
  cbn zeta. eexists. split; [reflexivity |]. split; [reflexivity |].
  cbn. lia.
Qed.

(** C4, amended: a slice resolved from an integer index, or from a range
    whose step is positive or absent and whose resolved bot does not exceed
    its resolved top, caches its bounds, and the width it caches and returns
    from then on is non-negative; for an integer index it is 1. *)
Theorem cached_width_nonneg (s s' : Slice) (r : SliceInner) :
  _inner s = None ->
  _get_inner s = Ok (s', r) ->
  forward_index (index s) ->
  bot r <= top r ->
  _inner s' = Some r /\
  Slice_width s' = Ok (s', width r) /\
  0 <= width r /\
  (forall i, index s = Int i -> width r = 1).
Proof.
  intros Hnone Hget Hfwd Hle.
  unfold _get_inner in Hget. rewrite Hnone in Hget.
  destruct (_slice_inner s) as [inner | e] eqn:Hres; [| discriminate].
  injection Hget as <- <-. split; [reflexivity |]. split; [reflexivity |].
  destruct (index s) as [i | start stop step] eqn:Hidx.
  - unfold _slice_inner in Hres. rewrite Hidx in Hres.
    destruct (i >=? _); [discriminate |].
    injection Hres as <-. cbn. split; [lia | reflexivity].
  - cbn in Hfwd.
    destruct (range_width_signed s start stop step inner Hidx Hres) as (_ & Hw & _).
    split; [| discriminate].
    rewrite Hw. apply Z.div_pos; lia.
Qed.

Lemma cached_width_nonneg_witness :
  (exists s',
      _get_inner (fresh 1 8 (PySlice (Some 2) (Some 6) None))
      = Ok (s', {| top := 6; bot := 2; step := None; width := 4 |})
      /\ _inner s' = Some {| top := 6; bot := 2; step := None; width := 4 |}
      /\ Slice_width s' = Ok (s', 4)
      /\ 0 <= 4) /\
  (exists s',
      _get_inner (fresh 2 8 (Int (-1)))
      = Ok (s', {| top := 8; bot := 7; step := None; width := 1 |})
      /\ _inner s' = Some {| top := 8; bot := 7; step := None; width := 1 |}
      /\ width {| top := 8; bot := 7; step := None; width := 1 |} = 1).
Proof.
  split.
  - eexists. split; [reflexivity |].
    destruct (cached_width_nonneg (fresh 1 8 (PySlice (Some 2) (Some 6) None))
                _ {| top := 6; bot := 2; step := None; width := 4 |}
                eq_refl eq_refl ltac:(cbn; lia) ltac:(cbn; lia))
      as (Hc & Hw & Hn & _).
    split; [exact Hc |]. split; [exact Hw | exact Hn].
  - eexists. split; [reflexivity |].
    destruct (cached_width_nonneg (fresh 2 8 (Int (-1)))
                _ {| top := 8; bot := 7; step := None; width := 1 |}
                eq_refl eq_refl I ltac:(cbn; lia))
      as (Hc & _ & _ & H1).
    split; [exact Hc | exact (H1 (-1) eq_refl)].
Defined.

(** C6: over a parent of width [W], an integer index [i] is normalised to
    [n], which is [i + W] when [i] is negative; resolution raises the
    out-of-bounds error exactly when [W <= n]; otherwise it gives top [n + 1],
    bot [n], no step and width 1; nothing checks [n] from below, so an index
    under [- W] resolves, to a negative bot.  For [W = 8], index [-1] gives
    top 8, bot 7, width 1, and index 8 fails. *)
Theorem int_index_resolution (W i : Z) (s : Slice) :
  0 <= W ->
  Sliceable.width (parent s) = W ->
  index s = Int i ->
  let n := if i <? 0 then i + W else i in
  (_slice_inner s = Err OutOfBounds <-> W <= n) /\
  (n < W ->
   _slice_inner s = Ok {| top := n + 1; bot := n; step := None; width := 1 |}) /\
  (i < - W ->
   _slice_inner s = Ok {| top := n + 1; bot := n; step := None; width := 1 |}
   /\ n < 0) /\
  _slice_inner (fresh (id s) 8 (Int (-1)))
  = Ok {| top := 8; bot := 7; step := None; width := 1 |} /\
  _slice_inner (fresh (id s) 8 (Int 8)) = Err OutOfBounds.
Proof.
  intros HW Hp Hi n. subst n.
  unfold _slice_inner at 1 2 3. rewrite Hi, Hp.
  destruct (i >=? W) eqn:Hge; destruct (i <? 0) eqn:Hneg; flip_tests.
  - lia.
  - repeat split; intros; try reflexivity; lia.
  - repeat split; intros; try reflexivity; try discriminate; try lia.
  - repeat split; intros; try reflexivity; try discriminate; try lia.
Qed.

Lemma int_index_resolution_witness :
  let s := fresh 5 8 (Int (-1)) in
  (_slice_inner s = Err OutOfBounds <-> 8 <= 7) /\
  (7 < 8 ->
   _slice_inner s = Ok {| top := 8; bot := 7; step := None; width := 1 |}).
Proof.
  cbn zeta.
  pose proof (int_index_resolution 8 (-1) (fresh 5 8 (Int (-1)))
                ltac:(lia) eq_refl eq_refl) as H.
  cbn zeta in H. change (if -1 <? 0 then -1 + 8 else -1) with 7 in H.
  destruct H as (H1 & H2 & _). split; [exact H1 | exact H2].
Defined.

(** Equality of slices is equality of their identities. *)
Lemma Slice__eq__iff (s s' : Slice) : Slice__eq__ s s' = true <-> id s = id s'.
Proof. unfold Slice__eq__. apply Z.eqb_eq. Qed.

(** The hash of an address below the modulus is the address. *)
Lemma hash_int_small (a : Z) : 0 <= a < _PyHASH_MODULUS -> hash_int a = a.
Proof.
  intros Ha. unfold hash_int.
  rewrite Z.abs_eq by lia. rewrite Z.mod_small by lia.
  destruct (Z.eq_dec a 0) as [-> | Hnz]; [reflexivity |].
  rewrite Z.sgn_pos by lia.
  destruct (1 * a =? -1) eqn:E; flip_tests; lia.
Qed.

(** C9: two slices constructed from the same parent and index at two
    different addresses are not equal and have different hashes, each is
    equal to itself, and equality is equality of identities.  Identities are
    addresses, which lie below the modulus of the integer hash. *)
Theorem slice_identity_semantics
  (a1 a2 : Z) (p : PyObj) (idx : Index) (s1 s2 : Slice) :
  Slice__init__ a1 p idx = Ok s1 ->
  Slice__init__ a2 p idx = Ok s2 ->
  a1 <> a2 ->
  0 <= a1 < _PyHASH_MODULUS ->
  0 <= a2 < _PyHASH_MODULUS ->
  parent s1 = parent s2 /\ index s1 = index s2 /\
  Slice__eq__ s1 s2 = false /\
  Slice__hash__ s1 <> Slice__hash__ s2 /\
  Slice__eq__ s1 s1 = true /\ Slice__eq__ s2 s2 = true /\
  (forall s s', Slice__eq__ s s' = true <-> id s = id s').
Proof.
  intros H1 H2 Hne Hb1 Hb2.
  destruct p as [p |]; [| discriminate].
  cbn in H1, H2. injection H1 as <-. injection H2 as <-.
  unfold Slice__eq__, Slice__hash__. cbn [id parent index].
  rewrite !hash_int_small by assumption.
  rewrite !Z.eqb_refl.
  repeat split; try assumption.
  - apply Z.eqb_neq. assumption.
  - apply Z.eqb_eq.
  - apply Z.eqb_eq.
Qed.

Lemma slice_identity_semantics_witness :
  let p := IsSliceable {| Sliceable.width := 8 |} in
  let idx := PySlice (Some 2) (Some 6) None in
  Slice__eq__ (fresh 4096 8 idx) (fresh 4160 8 idx) = false /\
  Slice__hash__ (fresh 4096 8 idx) <> Slice__hash__ (fresh 4160 8 idx).
Proof.
  cbn zeta.
  pose proof (slice_identity_semantics 4096 4160
                (IsSliceable {| Sliceable.width := 8 |})
                (PySlice (Some 2) (Some 6) None) _ _ eq_refl eq_refl
                ltac:(lia)
                ltac:(unfold _PyHASH_MODULUS; lia)
                ltac:(unfold _PyHASH_MODULUS; lia)) as H.
  destruct H as (_ & _ & Heq & Hhash & _). split; [exact Heq | exact Hhash].
Defined.

End SliceProofs.

(** * Properties of modules *)

Module ModuleProofs.
Import ModulePy.
Local Open Scope string_scope.

(** ** The heap: renaming and repointing keep the classes *)

Lemma cls_set_name (h : Heap) (a : addr) (n : option string) (b : addr) :
  cls (set_name h a n b) = cls (h b).
Proof.
  unfold set_name. destruct (Pos.eqb_spec b a) as [-> | _]; reflexivity.
Qed.

Lemma cls_set_parent_module (h : Heap) (a m b : addr) :
  cls (set_parent_module h a m b) = cls (h b).
Proof.
  unfold set_parent_module. destruct (Pos.eqb_spec b a) as [-> | _]; reflexivity.
Qed.

Lemma name_set_name (h : Heap) (a : addr) (n : option string) :
  name (set_name h a n a) = n.
Proof. unfold set_name. rewrite Pos.eqb_refl. reflexivity. Qed.

Lemma name_set_parent_module (h : Heap) (a m b : addr) :
  name (set_parent_module h a m b) = name (h b).
Proof.
  unfold set_parent_module. destruct (Pos.eqb_spec b a) as [-> | _]; reflexivity.
Qed.

(** ** The module after [attach] *)

Lemma coll_attach (c' c : Coll) (key : option string) (a : addr) (m : Module) :
  coll c' (attach c key a m)
  = if decide (c' = c) then <[key := a]> (coll c m) else coll c' m.
Proof. destruct c', c; reflexivity. Qed.

Lemma namespace_attach (c : Coll) (key : option string) (a : addr) (m : Module) :
  namespace (attach c key a m) = <[key := a]> (namespace m).
Proof. destruct c; reflexivity. Qed.

Lemma attrs_attach (c : Coll) (key : option string) (a : addr) (m : Module) :
  attrs (attach c key a m) = attrs m.
Proof. destruct c; reflexivity. Qed.

Lemma getattr_initialized_attach (c : Coll) (key : option string) (a : addr) (m : Module) :
  getattr_initialized (attach c key a m) = getattr_initialized m.
Proof. unfold getattr_initialized. rewrite attrs_attach. reflexivity. Qed.

(** ** What the operations compute *)

(** A value passes [_is_module_attr] exactly when the table routes it. *)
Lemma _is_module_attr_routed (h : Heap) (a : addr) :
  _is_module_attr h (PyRef a) = true <-> is_Some (routing_table (cls (h a))).
Proof.
  unfold _is_module_attr, class_of.
  destruct (cls (h a)) as [[|] | | | | |]; cbn; split;
    intros H; try reflexivity; try discriminate; try (eexists; reflexivity).
  destruct H as [c Hc]. discriminate.
Qed.

(** On a routed value [_add] attaches it under its name, points it at the
    module and returns it. *)
Lemma _add_routed (h : Heap) (m : Module) (a : addr) (c : Coll) :
  routing_table (cls (h a)) = Some c ->
  _add h m (PyRef a)
  = Ok (set_parent_module h a (mod_addr m), attach c (name (h a)) a m, PyRef a).
Proof.
  intros Hc. unfold _add.
  destruct (cls (h a)) as [[|] | | | | |]; cbn in Hc; try discriminate;
    injection Hc as <-; reflexivity.
Qed.

Lemma add_named_by_argument (h : Heap) (m : Module) (a : addr) (n : string) (c : Coll) :
  routing_table (cls (h a)) = Some c ->
  name (h a) = None ->
  add h m (PyRef a) (Some n)
  = Ok (set_parent_module (set_name h a (Some n)) a (mod_addr m),
        attach c (Some n) a m, PyRef a).
Proof.
  intros Hc Hn. unfold add, _assert_module_attr.
  assert (Hattr : _is_module_attr h (PyRef a) = true)
    by (apply _is_module_attr_routed; eauto).
  rewrite Hattr. cbn [negb bind as_ref]. rewrite Hn.
  rewrite (_add_routed _ _ _ c) by (rewrite cls_set_name; exact Hc).
  rewrite name_set_name. reflexivity.
Qed.

Lemma add_named_by_value (h : Heap) (m : Module) (a : addr) (n : string) (c : Coll) :
  routing_table (cls (h a)) = Some c ->
  name (h a) = Some n ->
  add h m (PyRef a) None
  = Ok (set_parent_module h a (mod_addr m), attach c (Some n) a m, PyRef a).
Proof.
  intros Hc Hn. unfold add, _assert_module_attr.
  assert (Hattr : _is_module_attr h (PyRef a) = true)
    by (apply _is_module_attr_routed; eauto).
  rewrite Hattr. cbn [negb bind as_ref]. rewrite Hn.
  rewrite (_add_routed _ _ _ c) by exact Hc.
  rewrite Hn. reflexivity.
Qed.

Lemma __setattr__routed (h : Heap) (m : Module) (key : string) (a : addr) (c : Coll) :
  getattr_initialized m = true ->
  routed_key key = true ->
  routing_table (cls (h a)) = Some c ->
  __setattr__ h m key (PyRef a)
  = Ok (set_parent_module (set_name h a (Some key)) a (mod_addr m),
        attach c (Some key) a m).
Proof.
  intros Hinit Hkey Hc. unfold routed_key in Hkey.
  apply andb_prop in Hkey as [Hkey Hname].
  apply andb_prop in Hkey as [Hunder Hban].
  apply negb_true_iff in Hunder, Hban, Hname.
  unfold __setattr__, _assert_module_attr.
  rewrite Hunder, Hinit, Hban, Hname. cbn [negb orb].
  assert (Hattr : _is_module_attr h (PyRef a) = true)
    by (apply _is_module_attr_routed; eauto).
  rewrite Hattr. cbn [negb bind as_ref].
  rewrite (_add_routed _ _ _ c) by (rewrite cls_set_name; exact Hc).
  rewrite name_set_name. reflexivity.
Qed.

(** A successful [add] attached a routed value under a name, returned it,
    and changed no class. *)
Lemma add_inv (h : Heap) (m : Module) (val : PyVal) (name_arg : option string)
      (h' : Heap) (m' : Module) (r : PyVal) :
  add h m val name_arg = Ok (h', m', r) ->
  exists a c n,
    val = PyRef a /\ r = PyRef a /\
    routing_table (cls (h a)) = Some c /\
    m' = attach c (Some n) a m /\
    (forall b, cls (h' b) = cls (h b)).
Proof.
  unfold add, _assert_module_attr.
  destruct (_is_module_attr h val) eqn:Hattr; [| discriminate].
  destruct val as [| | | a]; try discriminate.
  apply _is_module_attr_routed in Hattr as [c Hc].
  cbn [negb bind as_ref].
  destruct name_arg as [n |], (name (h a)) as [n' |] eqn:Hn; try discriminate.
  - rewrite (_add_routed _ _ _ c) by (rewrite cls_set_name; exact Hc).
    rewrite name_set_name. intros [= <- <- <-].
    exists a, c, n. repeat split; try assumption.
    intros b. rewrite cls_set_parent_module, cls_set_name. reflexivity.
  - rewrite (_add_routed _ _ _ c) by exact Hc.
    rewrite Hn. intros [= <- <- <-].
    exists a, c, n'. repeat split; try assumption.
    intros b. rewrite cls_set_parent_module. reflexivity.
Qed.

(** A successful attribute assignment either stored a plain attribute,
    leaving the heap and the seven dictionaries alone, or attached a routed
    value under the key. *)
Lemma __setattr__inv (h : Heap) (m : Module) (key : string) (val : PyVal)
      (h' : Heap) (m' : Module) :
  __setattr__ h m key val = Ok (h', m') ->
  (h' = h /\ m' = object__setattr__ m key val) \/
  (exists a c,
      val = PyRef a /\
      routing_table (cls (h a)) = Some c /\
      m' = attach c (Some key) a m /\
      (forall b, cls (h' b) = cls (h b))).
Proof.
  unfold __setattr__, _assert_module_attr.
  destruct (startswith_underscore key || negb (getattr_initialized m)).
  { intros [= <- <-]. left. split; reflexivity. }
  destruct (bool_decide (key ∈ banned)); [discriminate |].
  destruct (String.eqb key "name").
  { intros [= <- <-]. left. split; reflexivity. }
  destruct (_is_module_attr h val) eqn:Hattr; [| discriminate].
  destruct val as [| | | a]; try discriminate.
  apply _is_module_attr_routed in Hattr as [c Hc].
  cbn [negb bind as_ref].
  rewrite (_add_routed _ _ _ c) by (rewrite cls_set_name; exact Hc).
  rewrite name_set_name. cbn [bind fst snd]. intros [= <- <-].
  right. exists a, c. repeat split; try assumption.
  intros b. rewrite cls_set_parent_module, cls_set_name. reflexivity.
Qed.

(** The only exceptions of an attribute assignment are those of a protected
    key and of a value that is no module attribute. *)
Lemma __setattr__errors (h : Heap) (m : Module) (key : string) (val : PyVal)
      (e : ModuleError) :
  __setattr__ h m key val = Err e ->
  e = ProtectedAttribute \/ e = InvalidAttributeType.
Proof.
  unfold __setattr__, _assert_module_attr.
  destruct (startswith_underscore key || negb (getattr_initialized m));
    [discriminate |].
  destruct (bool_decide (key ∈ banned)); [intros [= <-]; left; reflexivity |].
  destruct (String.eqb key "name"); [discriminate |].
  destruct (_is_module_attr h val) eqn:Hattr;
    [| intros [= <-]; right; reflexivity].
  destruct val as [| | | a]; try discriminate.
  apply _is_module_attr_routed in Hattr as [c Hc].
  cbn [negb bind as_ref].
  rewrite (_add_routed _ _ _ c) by (rewrite cls_set_name; exact Hc).
  discriminate.
Qed.

(** ** The invariant of the seven dictionaries *)

Lemma inv_init (h : Heap) (a : addr) (n : option string) (src : PyVal) :
  inv h (Module__init__ a n src).
Proof.
  repeat split.
  - intros c k b Hb. destruct c; cbn in Hb; rewrite lookup_empty in Hb; discriminate.
  - intros c k b Hb. destruct c; cbn in Hb; rewrite lookup_empty in Hb; discriminate.
  - intros k b Hb. cbn in Hb. rewrite lookup_empty in Hb. discriminate.
Qed.

Lemma inv_heap (h h' : Heap) (m : Module) :
  (forall b, cls (h' b) = cls (h b)) -> inv h m -> inv h' m.
Proof.
  intros Hcls (Hr & Hk & Hn). repeat split; try assumption.
  intros c k b Hb. rewrite Hcls. eapply Hr, Hb.
Qed.

Lemma inv_attach (h : Heap) (m : Module) (c : Coll) (key : option string) (a : addr) :
  routing_table (cls (h a)) = Some c ->
  inv h m ->
  inv h (attach c key a m).
Proof.
  intros Hc (Hr & Hk & Hn). repeat split.
  - intros c' k b. rewrite coll_attach.
    destruct (decide (c' = c)) as [-> | Hne].
    + rewrite lookup_insert.
      destruct (decide (key = k)) as [-> | Hk']; [intros [= <-]; exact Hc |].
      apply Hr.
    + apply Hr.
  - intros c' k b. rewrite coll_attach, namespace_attach.
    rewrite (lookup_insert (namespace m)).
    destruct (decide (key = k)) as [-> | Hk']; [intros _; eexists; reflexivity |].
    destruct (decide (c' = c)) as [-> | Hne].
    + rewrite lookup_insert_ne by exact Hk'. apply Hk.
    + apply Hk.
  - intros k b. rewrite namespace_attach, lookup_insert.
    destruct (decide (key = k)) as [-> | Hk'].
    + intros [= <-]. exists c. rewrite coll_attach.
      destruct (decide (c = c)); [| congruence]. apply lookup_insert_eq.
    + intros Hb. destruct (Hn k b Hb) as [c' Hc'].
      exists c'. rewrite coll_attach.
      destruct (decide (c' = c)) as [-> | Hne]; [| exact Hc'].
      rewrite lookup_insert_ne by exact Hk'. exact Hc'.
Qed.

Lemma inv_object__setattr__ (h : Heap) (m : Module) (key : string) (val : PyVal) :
  inv h m -> inv h (object__setattr__ m key val).
Proof.
  intros (Hr & Hk & Hn). repeat split.
  - intros c k b Hb. apply (Hr c k b). destruct c; exact Hb.
  - intros c k b Hb. apply (Hk c k b). destruct c; exact Hb.
  - intros k b Hb. destruct (Hn k b Hb) as [c Hc]. exists c. destruct c; exact Hc.
Qed.

(** The invariant holds in every state a module goes through. *)
Lemma reachable_inv (h : Heap) (m : Module) : reachable h m -> inv h m.
Proof.
  induction 1 as [h a n src | h h' m _ IH Hcls
                 | h m val name_arg h' m' r _ IH Hadd
                 | h m key val h' m' _ IH _ Hset].
  - apply inv_init.
  - eapply inv_heap; eassumption.
  - apply add_inv in Hadd as (a & c & n & -> & -> & Hc & -> & Hcls).
    apply (inv_heap h); [exact Hcls |]. apply inv_attach; assumption.
  - apply __setattr__inv in Hset as [[-> ->] | (a & c & -> & Hc & -> & Hcls)].
    + apply inv_object__setattr__. exact IH.
    + apply (inv_heap h); [exact Hcls |]. apply inv_attach; assumption.
Qed.

(** An operation that attaches [v] under [n] succeeds, whatever the module
    holds: the value is attached in the sub-collection of its class, carries
    the name [n] afterwards, and no class changes. *)
Lemma run_op_attaches (h : Heap) (m : Module) (op : Op) (v : addr) (n : string) :
  attaches h m op v n ->
  exists h' c,
    routing_table (cls (h v)) = Some c /\
    run_op h m op = Ok (h', attach c (Some n) v m) /\
    (forall b, cls (h' b) = cls (h b)) /\
    name (h' v) = Some n.
Proof.
  destruct op as [val name_arg | key val]; cbn [attaches run_op].
  - intros (-> & Hattr & Hname).
    apply _is_module_attr_routed in Hattr as [c Hc].
    destruct Hname as [[-> Hn] | [-> Hn]].
    + eexists _, c. split; [exact Hc |].
      rewrite (add_named_by_argument _ _ _ _ c Hc Hn). cbn [bind fst snd].
      split; [reflexivity |]. split.
      * intros b. rewrite cls_set_parent_module, cls_set_name. reflexivity.
      * rewrite name_set_parent_module, name_set_name. reflexivity.
    + eexists _, c. split; [exact Hc |].
      rewrite (add_named_by_value _ _ _ _ c Hc Hn). cbn [bind fst snd].
      split; [reflexivity |]. split.
      * intros b. rewrite cls_set_parent_module. reflexivity.
      * rewrite name_set_parent_module. exact Hn.
  - intros (-> & Hattr & -> & Hkey & Hinit).
    apply _is_module_attr_routed in Hattr as [c Hc].
    eexists _, c. split; [exact Hc |].
    rewrite (__setattr__routed _ _ _ _ c Hinit Hkey Hc).
    split; [reflexivity |]. split.
    + intros b. rewrite cls_set_parent_module, cls_set_name. reflexivity.
    + rewrite name_set_parent_module, name_set_name. reflexivity.
Qed.

Lemma get_attach (c : Coll) (n : string) (a : addr) (m : Module) :
  get (attach c (Some n) a m) n = Some a.
Proof. unfold get. rewrite namespace_attach. apply lookup_insert_eq. Qed.

(** ** The claims on [Module] *)

(** C2: in any state a module goes through, attaching a valid attribute [v]
    under a name [n], by [add] with one name source or by a routed
    assignment, succeeds; afterwards [get n] and [namespace[n]] are [v], and
    [v] is in the sub-collection the routing table gives for its class and
    visibility, under [n], and in no other sub-collection. *)
Theorem attach_then_lookup (h : Heap) (m : Module) (op : Op) (v : addr) (n : string) :
  reachable h m ->
  attaches h m op v n ->
  exists h' m' c,
    run_op h m op = Ok (h', m') /\
    get m' n = Some v /\
    namespace m' !! Some n = Some v /\
    routing_table (cls (h v)) = Some c /\
    coll c m' !! Some n = Some v /\
    (forall c' k, coll c' m' !! k = Some v -> c' = c).
Proof.
  intros Hreach Hop.
  destruct (run_op_attaches h m op v n Hop) as (h' & c & Hc & Hrun & Hcls & _).
  exists h', (attach c (Some n) v m), c.
  split; [exact Hrun |]. split; [apply get_attach |].
  split; [apply get_attach |]. split; [exact Hc |]. split.
  - rewrite coll_attach. destruct (decide (c = c)); [| congruence].
    apply lookup_insert_eq.
  - intros c' k Hin.
    pose proof (inv_attach h m c (Some n) v Hc (reachable_inv h m Hreach))
      as (Hrouted & _ & _).
    specialize (Hrouted c' k v Hin). congruence.
Qed.

Lemma attach_then_lookup_witness :
  exists h' m' c,
    run_op example_heap example_module (OpAdd (PyRef 1%positive) None) = Ok (h', m') /\
    get m' "y" = Some 1%positive /\
    namespace m' !! Some "y" = Some 1%positive /\
    routing_table (cls (example_heap 1%positive)) = Some c /\
    coll c m' !! Some "y" = Some 1%positive /\
    (forall c' k, coll c' m' !! k = Some 1%positive -> c' = c).
Proof.
  apply (attach_then_lookup example_heap example_module
           (OpAdd (PyRef 1%positive) None) 1%positive "y").
  - apply reach_init.
  - cbn. split; [reflexivity |]. split; [reflexivity |]. right. split; reflexivity.
Defined.

(** C8: for a valid attribute [v], [add] raises the naming conflict when
    both [v.name] and the [name] argument are set, equal or not, and when
    neither is; with exactly one of them set it succeeds, returns [v] itself,
    and [v] carries the resolved name and is found under it. *)
Theorem add_naming_rule (h : Heap) (m : Module) (v : addr) (name_arg : option string) :
  _is_module_attr h (PyRef v) = true ->
  (is_Some name_arg -> is_Some (name (h v)) ->
   add h m (PyRef v) name_arg = Err NamingConflict) /\
  (name_arg = None -> name (h v) = None ->
   add h m (PyRef v) name_arg = Err NamingConflict) /\
  (forall n,
      (name_arg = Some n /\ name (h v) = None) \/
      (name_arg = None /\ name (h v) = Some n) ->
      exists h' m',
        add h m (PyRef v) name_arg = Ok (h', m', PyRef v) /\
        name (h' v) = Some n /\ get m' n = Some v).
Proof.
  intros Hattr. repeat split.
  - intros [n ->] [n' Hn]. unfold add, _assert_module_attr.
    rewrite Hattr. cbn [negb bind as_ref]. rewrite Hn. reflexivity.
  - intros -> Hn. unfold add, _assert_module_attr.
    rewrite Hattr. cbn [negb bind as_ref]. rewrite Hn. reflexivity.
  - intros n Hone.
    apply _is_module_attr_routed in Hattr as [c Hc].
    destruct Hone as [[-> Hn] | [-> Hn]].
    + rewrite (add_named_by_argument _ _ _ _ c Hc Hn).
      eexists _, _. split; [reflexivity |]. split; [| apply get_attach].
      rewrite name_set_parent_module, name_set_name. reflexivity.
    + rewrite (add_named_by_value _ _ _ _ c Hc Hn).
      eexists _, _. split; [reflexivity |]. split; [| apply get_attach].
      rewrite name_set_parent_module. exact Hn.
Qed.

Lemma add_naming_rule_witness :
  add example_heap example_module (PyRef 1%positive) (Some "y") = Err NamingConflict /\
  add example_heap example_module (PyRef 1%positive) (Some "x") = Err NamingConflict.
Proof.
  split.
  - destruct (add_naming_rule example_heap example_module 1%positive (Some "y") eq_refl)
      as (Hboth & _ & _).
    apply Hboth; eexists; reflexivity.
  - destruct (add_naming_rule example_heap example_module 1%positive (Some "x") eq_refl)
      as (Hboth & _ & _).
    apply Hboth; eexists; reflexivity.
Defined.

(** C3, refuted as stated: the signal at 1 is named [y]; assigning it to the
    attribute [x] of a module raises nothing, renames it to [x] and attaches
    it under [x]. *)
Lemma setattr_accepts_named_value :
  name (example_heap 1%positive) = Some "y" /\
  exists h' m',
    __setattr__ example_heap example_module "x" (PyRef 1%positive) = Ok (h', m') /\
    name (h' 1%positive) = Some "x" /\
    get m' "x" = Some 1%positive.
Proof.
  split; [reflexivity |].
  eexists _, _. split; [reflexivity |]. split; reflexivity.
Qed.

(** C3, amended: on a constructed module, assigning a valid attribute to a
    key that is neither private, nor protected, nor [name] succeeds whatever
    name the value carried, unset, equal to the key or different from it;
    the value carries the key as its name afterwards and is found under
    it. *)
Theorem setattr_overwrites_name (h : Heap) (m : Module) (key : string) (v : addr) :
  getattr_initialized m = true ->
  routed_key key = true ->
  _is_module_attr h (PyRef v) = true ->
  exists h' m',
    __setattr__ h m key (PyRef v) = Ok (h', m') /\
    name (h' v) = Some key /\
    get m' key = Some v.
Proof.
  intros Hinit Hkey Hattr.
  apply _is_module_attr_routed in Hattr as [c Hc].
  rewrite (__setattr__routed _ _ _ _ c Hinit Hkey Hc).
  eexists _, _. split; [reflexivity |]. split; [| apply get_attach].
  rewrite name_set_parent_module, name_set_name. reflexivity.
Qed.

Lemma setattr_overwrites_name_witness :
  exists h' m',
    __setattr__ example_heap example_module "y" (PyRef 1%positive) = Ok (h', m') /\
    name (h' 1%positive) = Some "y" /\
    get m' "y" = Some 1%positive.
Proof.
  apply (setattr_overwrites_name example_heap example_module "y" 1%positive);
    reflexivity.
Defined.




(** C10: when an operation attaches [v1] under [n], any later operation
    that attaches a valid [v2] under the same [n] raises nothing, and
    afterwards [get n] and [namespace[n]] are [v2]. *)
Theorem rebinding_replaces (h : Heap) (m : Module) (op1 : Op) (v1 : addr) (n : string) :
  attaches h m op1 v1 n ->
  exists h1 m1,
    run_op h m op1 = Ok (h1, m1) /\
    get m1 n = Some v1 /\
    forall op2 v2,
      attaches h1 m1 op2 v2 n ->
      exists h2 m2,
        run_op h1 m1 op2 = Ok (h2, m2) /\
        get m2 n = Some v2 /\
        namespace m2 !! Some n = Some v2.
Proof.
  intros Hop1.
  destruct (run_op_attaches h m op1 v1 n Hop1) as (h1 & c1 & _ & Hrun1 & _ & _).
  exists h1, (attach c1 (Some n) v1 m).
  split; [exact Hrun1 |]. split; [apply get_attach |].
  intros op2 v2 Hop2.
  destruct (run_op_attaches _ _ op2 v2 n Hop2) as (h2 & c2 & _ & Hrun2 & _ & _).
  exists h2, (attach c2 (Some n) v2 (attach c1 (Some n) v1 m)).
  split; [exact Hrun2 |]. split; apply get_attach.
Qed.

Lemma rebinding_replaces_witness :
  exists h1 m1,
    run_op example_heap example_module (OpAdd (PyRef 3%positive) (Some "n"))
    = Ok (h1, m1) /\
    get m1 "n" = Some 3%positive /\
    forall op2 v2,
      attaches h1 m1 op2 v2 "n" ->
      exists h2 m2,
        run_op h1 m1 op2 = Ok (h2, m2) /\
        get m2 "n" = Some v2 /\
        namespace m2 !! Some "n" = Some v2.
Proof.
  apply (rebinding_replaces example_heap example_module
           (OpAdd (PyRef 3%positive) (Some "n")) 3%positive "n").
  cbn. split; [reflexivity |]. split; [reflexivity |]. left. split; reflexivity.
Defined.

(** ** The claim on [ExternalModuleCall] *)

(** An object is an instance of its own type. *)
Lemma isinstance_own_type (p : PyInst) : isinstance p (type_ p) = true.
Proof. unfold isinstance, mro. apply bool_decide_eq_true. set_solver. Qed.

(** C7, refuted as stated: the external module declares [dict] as its
    parameter type, the value is an [OrderedDict], whose type is not [dict],
    and the call is constructed. *)
Lemma subclass_instance_accepted :
  ExternalModule__post_init__ example_external = Ok tt /\
  ExternalModule__post_init_post_parse__ example_external = Ok tt /\
  type_ example_params <> paramtype example_external /\
  ExternalModuleCall__init__ example_external example_params
  = Ok {| module := example_external; params := example_params |}.
Proof.
  split; [reflexivity |]. split; [reflexivity |]. split; [discriminate |].
  reflexivity.
Qed.

(** C7, amended: constructing an [ExternalModuleCall] raises the parameter
    type mismatch exactly when the value is not an instance of the declared
    parameter type, that is when the declared type is neither the value's
    type nor one of its ancestors; otherwise it succeeds, in particular when
    the value's type is the declared type itself. *)
Theorem call_checks_isinstance (m : ExternalModule) (p : PyInst) :
  (ExternalModuleCall__init__ m p = Err ParamTypeMismatch
   <-> tname (paramtype m) ∉ mro (type_ p)) /\
  (ExternalModuleCall__init__ m p = Ok {| module := m; params := p |}
   <-> tname (paramtype m) ∈ mro (type_ p)) /\
  ExternalModuleCall__init__ {| em_name := em_name m; port_list := port_list m;
                                paramtype := type_ p; desc := desc m;
                                domain := domain m |} p
  = Ok {| module := {| em_name := em_name m; port_list := port_list m;
                       paramtype := type_ p; desc := desc m;
                       domain := domain m |};
          params := p |}.
Proof.
  unfold ExternalModuleCall__init__, ExternalModuleCall__post_init_post_parse__,
    isinstance.
  cbn [module params].
  repeat split.
  - destruct (bool_decide_reflect (tname (paramtype m) ∈ mro (type_ p)));
      cbn; [discriminate | intros _; assumption].
  - intros Hnot. rewrite bool_decide_eq_false_2 by exact Hnot. reflexivity.
  - destruct (bool_decide_reflect (tname (paramtype m) ∈ mro (type_ p)));
      cbn; [intros _; assumption | discriminate].
  - intros Hin. rewrite bool_decide_eq_true_2 by exact Hin. reflexivity.
  - cbn [paramtype]. rewrite bool_decide_eq_true_2; [reflexivity |].
    unfold mro. set_solver.
Qed.

End ModuleProofs.

(** * Further properties of slice resolution *)

Module SliceExtras.
Import SlicePy.
Local Open Scope Z_scope.

Ltac tests :=
  repeat match goal with
    | H : (_ >=? _) = true |- _ => apply Z.geb_le in H
    | H : (_ >=? _) = false |- _ => rewrite Z.geb_leb in H; apply Z.leb_gt in H
    | H : (_ <? _) = true |- _ => apply Z.ltb_lt in H
    | H : (_ <? _) = false |- _ => apply Z.ltb_ge in H
    | H : (_ =? _) = true |- _ => apply Z.eqb_eq in H
    | H : (_ =? _) = false |- _ => apply Z.eqb_neq in H
    end.

(** A successful [_get_inner] leaves the slice resolved to what it returns. *)
Lemma _get_inner_resolved (s s' : Slice) (r : SliceInner) :
  _get_inner s = Ok (s', r) -> _inner s' = Some r.
Proof.
  unfold _get_inner. destruct (_inner s) as [inner |] eqn:Hin.
  - intros [= <- <-]. exact Hin.
  - destruct (_slice_inner s); [| discriminate]. intros [= <- <-]. reflexivity.
Qed.

(** X1: once a slice has been resolved, every later access, to [top],
    [bot], [step] or [width], returns the cached bounds and leaves the slice
    as it is; the parent is not read again, so the bounds stay even if the
    parent has changed meanwhile. *)
Theorem resolution_memoised (s s' : Slice) (r : SliceInner) (p' : Sliceable.t) :
  _get_inner s = Ok (s', r) ->
  _get_inner s' = Ok (s', r) /\
  Slice_top s' = Ok (s', top r) /\
  Slice_bot s' = Ok (s', bot r) /\
  Slice_step s' = Ok (s', step r) /\
  Slice_width s' = Ok (s', width r) /\
  _get_inner (with_parent s' p') = Ok (with_parent s' p', r).
Proof.
  intros Hget. apply _get_inner_resolved in Hget.
  assert (Hagain : _get_inner s' = Ok (s', r))
    by (unfold _get_inner; rewrite Hget; reflexivity).
  unfold Slice_top, Slice_bot, Slice_step, Slice_width. rewrite Hagain.
  repeat split. unfold _get_inner. cbn [with_parent _inner]. rewrite Hget.
  reflexivity.
Qed.

Lemma resolution_memoised_witness :
  let s := fresh 1 8 (PySlice (Some 2) (Some 6) None) in
  exists s',
    _get_inner s = Ok (s', {| top := 6; bot := 2; step := None; width := 4 |}) /\
    Slice_width s' = Ok (s', 4) /\
    Slice_width (with_parent s' {| Sliceable.width := 3 |})
    = Ok (with_parent s' {| Sliceable.width := 3 |}, 4).
Proof.
  cbn zeta. eexists. split; [reflexivity |].
  pose proof (resolution_memoised (fresh 1 8 (PySlice (Some 2) (Some 6) None))
                _ _ {| Sliceable.width := 3 |} eq_refl)
    as (_ & _ & _ & _ & Hw & Hp).
  split; [exact Hw |].
  unfold Slice_width. rewrite Hp. reflexivity.
Defined.

(** X2: construction checks nothing about the index: over a sliceable
    parent any index gives an unresolved slice; the first access fails
    exactly when the index is an integer at or above the width, or a range
    whose step is zero. *)
Theorem validation_deferred (a : Z) (p : Sliceable.t) (idx : Index) :
  exists s,
    Slice__init__ a (IsSliceable p) idx = Ok s /\
    _inner s = None /\
    (is_ok (Slice_width s) = false <->
     match idx with
     | Int i => Sliceable.width p <= i
     | PySlice _ _ step => step = Some 0
     end).
Proof.
  exists (fresh a (Sliceable.width p) idx).
  split; [destruct p; reflexivity |]. split; [reflexivity |].
  unfold Slice_width, _get_inner. cbn [fresh _inner].
  unfold _slice_inner. cbn [fresh index parent Sliceable.width].
  destruct idx as [i | start stop step].
  - destruct (i >=? Sliceable.width p) eqn:E; tests; cbn; split;
      intros; try reflexivity; try discriminate; lia.
  - destruct step as [st |].
    + destruct (st =? 0) eqn:E0; tests.
      * subst st. cbn. split; intros; reflexivity.
      * destruct (st <? 0); cbn; split; intros H; try discriminate;
          injection H as H; lia.
    + cbn. split; intros; discriminate.
Qed.

(** X3: when [start] and [stop] are both given and non-negative, the
    resolved bounds of a range do not depend on the width of the parent:
    nothing checks them against it. *)
Theorem given_bounds_ignore_width (a a' W W' start stop : Z) (step : option Z) :
  0 <= start ->
  0 <= stop ->
  _slice_inner (fresh a W (PySlice (Some start) (Some stop) step))
  = _slice_inner (fresh a' W' (PySlice (Some start) (Some stop) step)).
Proof.
  intros Hs Ht. unfold _slice_inner. cbn [fresh index parent Sliceable.width].
  assert (E1 : (start >=? 0) = true) by (apply Z.geb_le; lia).
  assert (E2 : (stop >=? 0) = true) by (apply Z.geb_le; lia).
  rewrite E1, E2. reflexivity.
Qed.

Lemma given_bounds_ignore_width_witness :
  _slice_inner (fresh 1 8 (PySlice (Some 0) (Some 100) None))
  = Ok {| top := 100; bot := 0; step := None; width := 100 |}.
Proof.
  rewrite (given_bounds_ignore_width 1 1 8 200 0 100 None) by lia.
  reflexivity.
Defined.

(** X4: an integer index [i] with [- W <= i < W] resolves to the single bit
    [i mod W], which lies inside the parent: bot is [i mod W], top is one
    more, the width is 1. *)
Theorem int_index_in_range (W i : Z) (s : Slice) :
  Sliceable.width (parent s) = W ->
  index s = Int i ->
  - W <= i < W ->
  _slice_inner s
  = Ok {| top := i mod W + 1; bot := i mod W; step := None; width := 1 |}
  /\ 0 <= i mod W < W.
Proof.
  intros Hp Hi Hr. unfold _slice_inner. rewrite Hi, Hp.
  destruct (i >=? W) eqn:Hge; tests; [lia |].
  assert (HW : 0 < W) by lia.
  destruct (i <? 0) eqn:Hneg; tests.
  - assert (Hm : i mod W = i + W).
    { symmetry. apply (Z.mod_unique i W (-1) (i + W)); lia. }
    rewrite Hm. split; [reflexivity | lia].
  - rewrite Z.mod_small by lia. split; [reflexivity | lia].
Qed.

Lemma int_index_in_range_witness :
  _slice_inner (fresh 1 8 (Int (-3)))
  = Ok {| top := 6; bot := 5; step := None; width := 1 |}.
Proof.
  destruct (int_index_in_range 8 (-3) (fresh 1 8 (Int (-3))) eq_refl eq_refl
              ltac:(lia)) as [H _].
  exact H.
Defined.



(** X6: a range whose step [k] is positive or absent starts at bot [lo], the
    given or default lower bound, and holds [n] whole steps, [n] being
    [(hi - lo) / k] rounded down: top is [lo + n * k]; when [lo <= hi] the
    width [n] is non-negative and top is the last step boundary not above
    [hi]. *)
Theorem forward_range_bounds (a W : Z) (start stop step : option Z) :
  0 < stepsz_of step ->
  let lo := lower W start in
  let hi := upper W stop in
  let n := (hi - lo) / stepsz_of step in
  _slice_inner (fresh a W (PySlice start stop step))
  = Ok {| top := lo + n * stepsz_of step; bot := lo; step := step; width := n |}
  /\ (lo <= hi ->
      0 <= n /\ lo + n * stepsz_of step <= hi < lo + (n + 1) * stepsz_of step).
Proof.
  intros Hpos lo hi n.
  assert (Hdm : hi - lo = stepsz_of step * n + (hi - lo) mod stepsz_of step)
    by (apply Z.div_mod; lia).
  assert (Hbnd : 0 <= (hi - lo) mod stepsz_of step < stepsz_of step)
    by (apply Z.mod_pos_bound; lia).
  split.
  - unfold _slice_inner. cbn [fresh index parent Sliceable.width].
    fold (stepsz_of step).
    destruct (stepsz_of step =? 0) eqn:E0; tests; [lia |].
    destruct (stepsz_of step <? 0) eqn:En; tests; [lia |].
    assert (Hlo : match start with
                  | Some start0 => if start0 >=? 0 then start0 else W + start0
                  | None => 0
                  end = lo).
    { subst lo. unfold lower, from_end. destruct start as [x |]; [| reflexivity].
      destruct (x >=? 0) eqn:E1; destruct (x <? 0) eqn:E2; tests;
        try reflexivity; lia. }
    assert (Hhi : match stop with
                  | Some stop0 => if stop0 >=? 0 then stop0 else W + stop0
                  | None => W
                  end = hi).
    { subst hi. unfold upper, from_end. destruct stop as [x |]; [| reflexivity].
      destruct (x >=? 0) eqn:E1; destruct (x <? 0) eqn:E2; tests;
        try reflexivity; lia. }
    rewrite Hlo, Hhi.
    replace (hi - (hi - lo) mod stepsz_of step) with (lo + n * stepsz_of step)
      by lia.
    replace (lo + n * stepsz_of step - lo) with (n * stepsz_of step) by lia.
    rewrite Z.div_mul by lia. reflexivity.
  - intros Hle. split; [apply Z.div_pos; lia |]. lia.
Qed.

Lemma forward_range_bounds_witness :
  _slice_inner (fresh 1 8 (PySlice (Some 1) None (Some 3)))
  = Ok {| top := 7; bot := 1; step := Some 3; width := 2 |}.
Proof.
  destruct (forward_range_bounds 1 8 (Some 1) None (Some 3) ltac:(cbn; lia))
    as [H _].
  exact H.
Defined.

(** X7: in every resolved range the span from bot to top is a whole number
    of steps: it is a multiple of the step, and the width times the step is
    the span. *)
Theorem span_is_whole_steps (s : Slice) (start stop step : option Z) (r : SliceInner) :
  index s = PySlice start stop step ->
  _slice_inner s = Ok r ->
  (top r - bot r) mod Z.abs (stepsz_of step) = 0 /\
  width r * stepsz_of step = top r - bot r.
Proof.
  intros Hidx Hr.
  destruct (SliceProofs.range_width_signed s start stop step r Hidx Hr)
    as (Hal & _ & Hmul).
  split; assumption.
Qed.

Lemma span_is_whole_steps_witness :
  (7 - 1) mod Z.abs 3 = 0 /\ 2 * 3 = 7 - 1.
Proof.
  exact (span_is_whole_steps (fresh 1 8 (PySlice (Some 1) None (Some 3)))
           (Some 1) None (Some 3)
           {| top := 7; bot := 1; step := Some 3; width := 2 |}
           eq_refl eq_refl).
Defined.

(** X8: a range with a negative step [k] has its top just above [start],
    counted from the end when negative, the width when absent; its bot is
    the bound [lo] just above [stop], 0 when absent, moved up by
    [(top - lo) mod |k|]; when [lo] does not exceed the top, bot stays
    within one step of [lo] and does not pass the top. *)
Theorem backward_range_bounds (a W : Z) (start stop step : option Z) (r : SliceInner) :
  stepsz_of step < 0 ->
  _slice_inner (fresh a W (PySlice start stop step)) = Ok r ->
  let hi := match start with None => W | Some x => from_end W x + 1 end in
  let lo := match stop with None => 0 | Some x => from_end W x + 1 end in
  top r = hi /\
  bot r = lo + (hi - lo) mod Z.abs (stepsz_of step) /\
  (lo <= hi -> lo <= bot r <= hi /\ bot r - lo < Z.abs (stepsz_of step)).
Proof.
  intros Hneg Hr hi lo.
  unfold _slice_inner in Hr. cbn [fresh index parent Sliceable.width] in Hr.
  fold (stepsz_of step) in Hr.
  destruct (stepsz_of step =? 0) eqn:E0; tests; [lia |].
  destruct (stepsz_of step <? 0) eqn:En; tests; [| lia].
  assert (Hhi : match start with
                | Some start0 => if start0 >=? 0 then start0 + 1 else W + start0 + 1
                | None => W
                end = hi).
  { subst hi. unfold from_end. destruct start as [x |]; [| reflexivity].
    destruct (x >=? 0) eqn:E1; destruct (x <? 0) eqn:E2; tests;
      try reflexivity; lia. }
  assert (Hlo : match stop with
                | Some stop0 => if stop0 >=? 0 then stop0 + 1 else W + stop0 + 1
                | None => 0
                end = lo).
  { subst lo. unfold from_end. destruct stop as [x |]; [| reflexivity].
    destruct (x >=? 0) eqn:E1; destruct (x <? 0) eqn:E2; tests;
      try reflexivity; lia. }
  rewrite Hhi, Hlo in Hr. injection Hr as <-. cbn [top bot].
  split; [reflexivity |]. split; [reflexivity |].
  intros Hle.
  assert (Hbnd : 0 <= (hi - lo) mod Z.abs (stepsz_of step) < Z.abs (stepsz_of step))
    by (apply Z.mod_pos_bound; lia).
  assert (Hmle : (hi - lo) mod Z.abs (stepsz_of step) <= hi - lo)
    by (apply Z.mod_le; lia).
  lia.
Qed.

Lemma backward_range_bounds_witness :
  let r := {| top := 8; bot := 2; step := Some (-3); width := -2 |} in
  top r = 7 + 1 /\ bot r = (0 + 1) + (7 + 1 - (0 + 1)) mod Z.abs (-3).
Proof.
  cbn zeta.
  destruct (backward_range_bounds 1 8 (Some 7) (Some 0) (Some (-3))
              {| top := 8; bot := 2; step := Some (-3); width := -2 |}
              ltac:(cbn; lia) eq_refl) as (Ht & Hb & _).
  split; [exact Ht | exact Hb].
Defined.

End SliceExtras.

(** * Further properties of modules *)

Module ModuleExtras.
Import ModulePy.
Import ModuleProofs.
Local Open Scope string_scope.

(** A protected key does not start with an underscore and is not [name]. *)
Lemma banned_key (key : string) :
  key ∈ banned ->
  startswith_underscore key = false /\ bool_decide (key ∈ banned) = true.
Proof.
  intros Hin. split; [| apply bool_decide_eq_true_2; exact Hin].
  unfold banned in Hin.
  repeat (apply elem_of_cons in Hin as [-> | Hin]; [reflexivity |]).
  apply elem_of_nil in Hin. contradiction.
Qed.

Lemma coll_object__setattr__ (c : Coll) (m : Module) (key : string) (val : PyVal) :
  coll c (object__setattr__ m key val) = coll c m.
Proof. destruct c; reflexivity. Qed.

(** X9: an assignment to an underscore-prefixed key, or to [name], is a
    plain store: it succeeds for any value, without type check, keeps the
    heap, and changes neither what [get] returns nor any sub-collection. *)
Theorem plain_assignment (h : Heap) (m : Module) (key : string) (val : PyVal) :
  startswith_underscore key = true \/ key = "name" ->
  __setattr__ h m key val = Ok (h, object__setattr__ m key val) /\
  attrs (object__setattr__ m key val) !! key = Some val /\
  (forall n, get (object__setattr__ m key val) n = get m n) /\
  (forall c, coll c (object__setattr__ m key val) = coll c m).
Proof.
  intros Hkey. split; [| split; [| split]].
  - unfold __setattr__. destruct Hkey as [Hunder | ->].
    + rewrite Hunder. reflexivity.
    + destruct (getattr_initialized m); reflexivity.
  - cbn. apply lookup_insert_eq.
  - intros n. reflexivity.
  - intros c. apply coll_object__setattr__.
Qed.

Lemma plain_assignment_witness :
  __setattr__ example_heap example_module "_scratch" (PyStr "anything")
  = Ok (example_heap, object__setattr__ example_module "_scratch" (PyStr "anything")).
Proof.
  destruct (plain_assignment example_heap example_module "_scratch"
              (PyStr "anything") (or_introl eq_refl)) as [H _].
  exact H.
Defined.

(** X10: on a constructed module an assignment to one of the nine
    protected keys raises the protected-attribute error whatever the value;
    [add] has no such guard and attaches a valid unnamed value under the
    same key, where [get] finds it. *)
Theorem protected_names (h : Heap) (m : Module) (key : string) (val : PyVal) :
  getattr_initialized m = true ->
  key ∈ banned ->
  __setattr__ h m key val = Err ProtectedAttribute /\
  (forall v,
      _is_module_attr h (PyRef v) = true ->
      name (h v) = None ->
      exists h' m',
        add h m (PyRef v) (Some key) = Ok (h', m', PyRef v) /\
        get m' key = Some v).
Proof.
  intros Hinit Hin. destruct (banned_key key Hin) as [Hunder Hban]. split.
  - unfold __setattr__. rewrite Hunder, Hinit, Hban. reflexivity.
  - intros v Hattr Hname.
    apply _is_module_attr_routed in Hattr as [c Hc].
    rewrite (add_named_by_argument _ _ _ _ c Hc Hname).
    eexists _, _. split; [reflexivity | apply get_attach].
Qed.

Lemma protected_names_witness :
  __setattr__ example_heap example_module "ports" (PyRef 3%positive)
  = Err ProtectedAttribute /\
  exists h' m',
    add example_heap example_module (PyRef 3%positive) (Some "ports")
    = Ok (h', m', PyRef 3%positive) /\
    get m' "ports" = Some 3%positive.
Proof.
  destruct (protected_names example_heap example_module "ports" (PyRef 3%positive)
              eq_refl ltac:(unfold banned; repeat constructor)) as [Hset Hadd].
  split; [exact Hset |]. apply Hadd; reflexivity.
Defined.

(** X11: a value that is no module attribute is refused with the
    invalid-attribute error by [add], whatever the two name sources are, by
    an assignment to a routed key, and by [_add] itself. *)
Theorem invalid_attribute_rejected (h : Heap) (m : Module) (val : PyVal) :
  _is_module_attr h val = false ->
  (forall name_arg, add h m val name_arg = Err InvalidAttributeType) /\
  (forall key,
      getattr_initialized m = true ->
      routed_key key = true ->
      __setattr__ h m key val = Err InvalidAttributeType) /\
  _add h m val = Err InvalidAttributeType.
Proof.
  intros Hattr. split; [| split].
  - intros name_arg. unfold add, _assert_module_attr. rewrite Hattr. reflexivity.
  - intros key Hinit Hkey. unfold routed_key in Hkey.
    apply andb_prop in Hkey as [Hkey Hname].
    apply andb_prop in Hkey as [Hunder Hban].
    apply negb_true_iff in Hunder, Hban, Hname.
    unfold __setattr__, _assert_module_attr.
    rewrite Hunder, Hinit, Hban, Hname, Hattr. reflexivity.
  - unfold _add. destruct val as [| | | a]; try reflexivity.
    unfold _is_module_attr, class_of in Hattr.
    destruct (cls (h a)); try discriminate. reflexivity.
Qed.

Lemma invalid_attribute_rejected_witness :
  add example_heap example_module (PyStr "not hardware") (Some "x")
  = Err InvalidAttributeType /\
  add example_heap example_module (PyRef 9%positive) None
  = Err InvalidAttributeType.
Proof.
  split.
  - destruct (invalid_attribute_rejected example_heap example_module
                (PyStr "not hardware") eq_refl) as [H _].
    apply H.
  - destruct (invalid_attribute_rejected example_heap example_module
                (PyRef 9%positive) eq_refl) as [H _].
    apply H.
Defined.



(** The state after an operation that attaches [v] under [n], in full. *)
Lemma run_op_attaches_state (h : Heap) (m : Module) (op : Op) (v : addr) (n : string) :
  attaches h m op v n ->
  exists h0 c,
    (h0 = h \/ h0 = set_name h v (Some n)) /\
    name (h0 v) = Some n /\
    routing_table (cls (h v)) = Some c /\
    run_op h m op
    = Ok (set_parent_module h0 v (mod_addr m), attach c (Some n) v m).
Proof.
  destruct op as [val name_arg | key val]; cbn [attaches run_op].
  - intros (-> & Hattr & Hname).
    apply _is_module_attr_routed in Hattr as [c Hc].
    destruct Hname as [[-> Hn] | [-> Hn]].
    + exists (set_name h v (Some n)), c.
      rewrite (add_named_by_argument _ _ _ _ c Hc Hn).
      repeat split; auto. apply name_set_name.
    + exists h, c. rewrite (add_named_by_value _ _ _ _ c Hc Hn).
      repeat split; auto.
  - intros (-> & Hattr & -> & Hkey & Hinit).
    apply _is_module_attr_routed in Hattr as [c Hc].
    exists (set_name h v (Some n)), c.
    rewrite (__setattr__routed _ _ _ _ c Hinit Hkey Hc).
    repeat split; auto. apply name_set_name.
Qed.

Lemma set_name_other (h : Heap) (a b : addr) (n : option string) :
  b <> a -> set_name h a n b = h b.
Proof.
  intros Hne. unfold set_name. destruct (Pos.eqb_spec b a); [contradiction | reflexivity].
Qed.

Lemma set_parent_module_other (h : Heap) (a m b : addr) :
  b <> a -> set_parent_module h a m b = h b.
Proof.
  intros Hne. unfold set_parent_module.
  destruct (Pos.eqb_spec b a); [contradiction | reflexivity].
Qed.

Lemma _parent_module_set (h : Heap) (a m : addr) :
  _parent_module (set_parent_module h a m a) = Some m.
Proof. unfold set_parent_module. rewrite Pos.eqb_refl. reflexivity. Qed.

Lemma mod_addr_attach (c : Coll) (key : option string) (a : addr) (m : Module) :
  mod_addr (attach c key a m) = mod_addr m.
Proof. destruct c; reflexivity. Qed.

(** X13: attaching [v] under [n] touches nothing else: [get] of any other
    name, every entry of every sub-collection under another key, every
    sub-collection other than the routed one, the plain attributes of the
    module and every other object of the heap are as before; [v] keeps its
    class, is named [n] and points back at the module. *)
Theorem attach_frame (h : Heap) (m : Module) (op : Op) (v : addr) (n : string)
    (h' : Heap) (m' : Module) :
  attaches h m op v n ->
  run_op h m op = Ok (h', m') ->
  (forall k, k <> n -> get m' k = get m k) /\
  (forall c k, k <> Some n -> coll c m' !! k = coll c m !! k) /\
  (forall c, routing_table (cls (h v)) <> Some c -> coll c m' = coll c m) /\
  attrs m' = attrs m /\
  (forall b, b <> v -> h' b = h b) /\
  cls (h' v) = cls (h v) /\
  name (h' v) = Some n /\
  _parent_module (h' v) = Some (mod_addr m).
Proof.
  intros Hop Hrun.
  destruct (run_op_attaches_state h m op v n Hop)
    as (h0 & c & Hh0 & Hn0 & Hc & Hrun').
  rewrite Hrun' in Hrun. injection Hrun as <- <-.
  repeat split.
  - intros k Hk. unfold get. rewrite namespace_attach.
    apply lookup_insert_ne. congruence.
  - intros c' k Hk. rewrite coll_attach.
    destruct (decide (c' = c)) as [-> | _]; [| reflexivity].
    apply lookup_insert_ne. congruence.
  - intros c' Hc'. rewrite coll_attach.
    destruct (decide (c' = c)) as [-> | _]; [congruence | reflexivity].
  - apply attrs_attach.
  - intros b Hb. rewrite set_parent_module_other by exact Hb.
    destruct Hh0 as [-> | ->]; [reflexivity | apply set_name_other; exact Hb].
  - rewrite cls_set_parent_module.
    destruct Hh0 as [-> | ->]; [reflexivity | apply cls_set_name].
  - rewrite name_set_parent_module. exact Hn0.
  - apply _parent_module_set.
Qed.

Lemma attach_frame_witness :
  let h' := set_parent_module example_heap 1%positive 100%positive in
  let m' := attach Signals (Some "y") 1%positive example_module in
  (forall k, k <> "y" -> get m' k = get example_module k) /\
  (forall b, b <> 1%positive -> h' b = example_heap b).
Proof.
  cbn zeta.
  destruct (attach_frame example_heap example_module
              (OpAdd (PyRef 1%positive) None) 1%positive "y" _ _
              (conj eq_refl (conj eq_refl (or_intror (conj eq_refl eq_refl))))
              eq_refl) as (Hget & _ & _ & _ & Hheap & _).
  split; [exact Hget | exact Hheap].
Defined.

(** X14: no ownership is checked: a value attached to one module can be
    attached to a second one; the back-reference is repointed to the second
    module, the value carries the second name, and the first module still
    holds it under the first name. *)
Theorem reattach_repoints_owner (h : Heap) (m1 m2 : Module) (op1 op2 : Op)
    (v : addr) (n1 n2 : string) (h1 : Heap) (m1' : Module) :
  attaches h m1 op1 v n1 ->
  run_op h m1 op1 = Ok (h1, m1') ->
  attaches h1 m2 op2 v n2 ->
  exists h2 m2',
    run_op h1 m2 op2 = Ok (h2, m2') /\
    _parent_module (h1 v) = Some (mod_addr m1) /\
    _parent_module (h2 v) = Some (mod_addr m2) /\
    name (h2 v) = Some n2 /\
    get m1' n1 = Some v /\
    get m2' n2 = Some v.
Proof.
  intros Hop1 Hrun1 Hop2.
  destruct (run_op_attaches_state h m1 op1 v n1 Hop1)
    as (h0 & c1 & _ & _ & _ & Hrun1').
  rewrite Hrun1' in Hrun1. injection Hrun1 as <- <-.
  destruct (run_op_attaches_state _ m2 op2 v n2 Hop2)
    as (h0' & c2 & Hh0' & Hn0' & Hc2 & Hrun2).
  eexists _, _. split; [exact Hrun2 |].
  split; [apply _parent_module_set |]. split; [apply _parent_module_set |].
  split; [rewrite name_set_parent_module; exact Hn0' |].
  split; apply get_attach.
Qed.

Lemma reattach_repoints_owner_witness :
  let h1 := set_parent_module example_heap 1%positive 100%positive in
  let m1' := attach Signals (Some "y") 1%positive example_module in
  let m2 := Module__init__ 200%positive (Some "N") PyNone in
  exists h2 m2',
    run_op h1 m2 (OpSetattr "z" (PyRef 1%positive)) = Ok (h2, m2') /\
    _parent_module (h1 1%positive) = Some 100%positive /\
    _parent_module (h2 1%positive) = Some 200%positive /\
    name (h2 1%positive) = Some "z" /\
    get m1' "y" = Some 1%positive /\
    get m2' "z" = Some 1%positive.
Proof.
  cbn zeta.
  apply (reattach_repoints_owner example_heap example_module
           (Module__init__ 200%positive (Some "N") PyNone)
           (OpAdd (PyRef 1%positive) None) (OpSetattr "z" (PyRef 1%positive))
           1%positive "y" "z").
  - cbn. split; [reflexivity |]. split; [reflexivity |]. right. split; reflexivity.
  - reflexivity.
  - cbn. repeat split; reflexivity.
Defined.

(** X15: attaching the same value a second time to the same module, under
    a name [b], keeps the entry made under the first name [a]: afterwards
    [get] returns the value for both names, and the value is named [b]. *)
Theorem second_name_aliases (h : Heap) (m : Module) (op1 op2 : Op)
    (v : addr) (a b : string) (h1 : Heap) (m1 : Module) :
  attaches h m op1 v a ->
  run_op h m op1 = Ok (h1, m1) ->
  attaches h1 m1 op2 v b ->
  exists h2 m2,
    run_op h1 m1 op2 = Ok (h2, m2) /\
    get m2 a = Some v /\
    get m2 b = Some v /\
    name (h2 v) = Some b.
Proof.
  intros Hop1 Hrun1 Hop2.
  destruct (run_op_attaches_state h m op1 v a Hop1)
    as (h0 & c1 & _ & _ & _ & Hrun1').
  rewrite Hrun1' in Hrun1. injection Hrun1 as <- <-.
  destruct (run_op_attaches_state _ _ op2 v b Hop2)
    as (h0' & c2 & _ & Hn0' & _ & Hrun2).
  eexists _, _. split; [exact Hrun2 |]. split; [| split].
  - unfold get. rewrite namespace_attach, lookup_insert.
    destruct (decide (Some b = Some a)); [reflexivity |].
    rewrite namespace_attach. apply lookup_insert_eq.
  - apply get_attach.
  - rewrite name_set_parent_module. exact Hn0'.
Qed.

Lemma second_name_aliases_witness :
  let h1 := set_parent_module example_heap 1%positive 100%positive in
  let m1 := attach Signals (Some "y") 1%positive example_module in
  exists h2 m2,
    run_op h1 m1 (OpSetattr "z" (PyRef 1%positive)) = Ok (h2, m2) /\
    get m2 "y" = Some 1%positive /\
    get m2 "z" = Some 1%positive /\
    name (h2 1%positive) = Some "z".
Proof.
  cbn zeta.
  apply (second_name_aliases example_heap example_module
           (OpAdd (PyRef 1%positive) None) (OpSetattr "z" (PyRef 1%positive))
           1%positive "y" "z").
  - cbn. split; [reflexivity |]. split; [reflexivity |]. right. split; reflexivity.
  - reflexivity.
  - cbn. repeat split; reflexivity.
Defined.

(** What a successful operation does to the module: nothing to the seven
    dictionaries, or one [attach] under a string key. *)
Lemma run_op_inv (h : Heap) (m : Module) (op : Op) (h' : Heap) (m' : Module) :
  run_op h m op = Ok (h', m') ->
  (forall b, cls (h' b) = cls (h b)) /\
  ((namespace m' = namespace m /\ forall c, coll c m' = coll c m) \/
   exists a c n, routing_table (cls (h a)) = Some c /\ m' = attach c (Some n) a m).
Proof.
  destruct op as [val name_arg | key val]; cbn [run_op].
  - destruct (add h m val name_arg) as [[[h1 m1] r] | e] eqn:Hadd; [| discriminate].
    cbn. intros [= <- <-].
    apply add_inv in Hadd as (a & c & n & _ & _ & Hc & -> & Hcls).
    split; [exact Hcls |]. right. eauto.
  - intros Hset.
    apply __setattr__inv in Hset as [[-> ->] | (a & c & _ & Hc & -> & Hcls)].
    + split; [reflexivity |]. left. split; [reflexivity |].
      intros c. apply coll_object__setattr__.
    + split; [exact Hcls |]. right. eauto.
Qed.

(** X16: on a constructed module no operation removes or empties
    anything: a key present in [namespace] or in a sub-collection before a
    successful [add], or a successful assignment made once the constructor
    has returned, is present after it, and no object changes class. *)
Theorem operations_only_add (h : Heap) (m : Module) (op : Op) (h' : Heap) (m' : Module) :
  on_constructed m op ->
  run_op h m op = Ok (h', m') ->
  (forall k, is_Some (namespace m !! k) -> is_Some (namespace m' !! k)) /\
  (forall c k, is_Some (coll c m !! k) -> is_Some (coll c m' !! k)) /\
  (forall b, cls (h' b) = cls (h b)).
Proof.
  intros _ Hrun.
  destruct (run_op_inv h m op h' m' Hrun)
    as [Hcls [[Hns Hcoll] | (a & c & n & _ & ->)]].
  - split; [| split]; [| | exact Hcls].
    + intros k. rewrite Hns. auto.
    + intros c k. rewrite Hcoll. auto.
  - split; [| split]; [| | exact Hcls].
    + intros k Hk. rewrite namespace_attach, lookup_insert.
      destruct (decide (Some n = k)); [eexists; reflexivity | exact Hk].
    + intros c' k Hk. rewrite coll_attach.
      destruct (decide (c' = c)) as [-> | _]; [| exact Hk].
      rewrite lookup_insert.
      destruct (decide (Some n = k)); [eexists; reflexivity | exact Hk].
Qed.

Lemma operations_only_add_witness :
  let h1 := set_parent_module example_heap 1%positive 100%positive in
  let m1 := attach Signals (Some "y") 1%positive example_module in
  exists h2 m2,
    run_op h1 m1 (OpSetattr "n" (PyRef 3%positive)) = Ok (h2, m2) /\
    is_Some (namespace m2 !! Some "y").
Proof.
  cbn zeta. eexists _, _. split; [reflexivity |].
  destruct (operations_only_add
              (set_parent_module example_heap 1%positive 100%positive)
              (attach Signals (Some "y") 1%positive example_module)
              (OpSetattr "n" (PyRef 3%positive)) _ _ eq_refl eq_refl) as [H _].
  apply H. eexists. reflexivity.
Defined.

(** X17: in every state a module goes through, the keys of [namespace] and
    of the six sub-collections are strings: nothing is filed under [None],
    although [_add] on its own files a value under whatever its name is. *)
Theorem keys_are_strings (h : Heap) (m : Module) :
  reachable h m ->
  namespace m !! None = None /\ forall c, coll c m !! None = None.
Proof.
  induction 1 as [h a n src | h h' m _ IH Hcls
                 | h m val name_arg h' m' r _ IH Hadd
                 | h m key val h' m' _ IH _ Hset].
  - split; [apply lookup_empty |]. intros c. destruct c; apply lookup_empty.
  - exact IH.
  - apply add_inv in Hadd as (a & c & n & _ & _ & _ & -> & _).
    destruct IH as [Hns Hcoll]. split.
    + rewrite namespace_attach, lookup_insert_ne by discriminate. exact Hns.
    + intros c'. rewrite coll_attach.
      destruct (decide (c' = c)) as [-> | _]; [| apply Hcoll].
      rewrite lookup_insert_ne by discriminate. apply Hcoll.
  - apply __setattr__inv in Hset as [[-> ->] | (a & c & _ & _ & -> & _)].
    + destruct IH as [Hns Hcoll]. split; [exact Hns |].
      intros c. rewrite coll_object__setattr__. apply Hcoll.
    + destruct IH as [Hns Hcoll]. split.
      * rewrite namespace_attach, lookup_insert_ne by discriminate. exact Hns.
      * intros c'. rewrite coll_attach.
        destruct (decide (c' = c)) as [-> | _]; [| apply Hcoll].
        rewrite lookup_insert_ne by discriminate. apply Hcoll.
Qed.

Lemma keys_are_strings_witness :
  let m := attach Signals (Some "y") 1%positive example_module in
  namespace m !! None = None /\ forall c, coll c m !! None = None.
Proof.
  cbn zeta.
  apply (keys_are_strings (set_parent_module example_heap 1%positive 100%positive)).
  eapply reach_add; [apply (reach_init example_heap 100%positive (Some "M") PyNone) |].
  exact (add_named_by_value example_heap example_module 1%positive "y" Signals
           eq_refl eq_refl).
Defined.

(** ** The [module] decorator *)

Lemma dunder_is_underscore (key : string) :
  startswith_dunder key = true -> startswith_underscore key = true.
Proof.
  destruct key as [| c key]; [discriminate |]. cbn.
  destruct (Ascii.eqb_spec c "_"%char) as [-> | Hne]; [reflexivity |].
  destruct c as [[] [] [] [] [] [] [] []]; try discriminate; congruence.
Qed.

(** X18: the decorator never assigns a binding whose key starts with an
    underscore, single or double: converting a class body gives what
    converting its public bindings alone gives, and a body that inherits
    from anything but [object] is refused. *)
Theorem private_bindings_dropped (h : Heap) (a : addr) (src : PyVal)
    (cls_name : string) (bases : list string) (cls_dict : list (string * PyVal)) :
  module_decorator h a src cls_name bases cls_dict
  = module_decorator h a src cls_name bases (List.filter public cls_dict)
  /\ (bases <> ["object"] ->
      module_decorator h a src cls_name bases cls_dict = Err InvalidInheritance).
Proof.
  split.
  - unfold module_decorator.
    destruct (negb (bool_decide (bases = ["object"]))); [reflexivity |].
    generalize (Module__init__ a (Some cls_name) src) as m. revert h.
    induction cls_dict as [| [key val] items IH]; intros h m; [reflexivity |].
    cbn [module_items List.filter]. unfold public at 1. cbn [fst].
    destruct (startswith_dunder key) eqn:Hd.
    + rewrite (dunder_is_underscore key Hd). cbn [negb]. apply IH.
    + destruct (startswith_underscore key) eqn:Hu; cbn [negb]; [apply IH |].
      cbn [module_items]. rewrite Hd, Hu.
      destruct (__setattr__ h m key val) as [[h1 m1] | e]; [apply IH | reflexivity].
  - intros Hb. unfold module_decorator.
    rewrite bool_decide_eq_false_2 by exact Hb. reflexivity.
Qed.

Lemma _is_module_attr_cls (h h' : Heap) (val : PyVal) :
  (forall b, cls (h' b) = cls (h b)) ->
  _is_module_attr h' val = _is_module_attr h val.
Proof.
  intros Hcls. unfold _is_module_attr, class_of.
  destruct val; try reflexivity. rewrite Hcls. reflexivity.
Qed.

Lemma getattr_initialized_name (m : Module) (val : PyVal) :
  getattr_initialized (object__setattr__ m "name" val) = getattr_initialized m.
Proof.
  unfold getattr_initialized. cbn [object__setattr__ attrs].
  rewrite lookup_insert_ne by discriminate. reflexivity.
Qed.

(** An assignment to a public key on a constructed module: either the key
    is [name] and the value is stored plainly, or the key is routed and the
    value attached. *)
Lemma __setattr__public (h : Heap) (m : Module) (key : string) (val : PyVal)
      (h' : Heap) (m' : Module) :
  startswith_underscore key = false ->
  getattr_initialized m = true ->
  __setattr__ h m key val = Ok (h', m') ->
  (key ∉ banned) /\
  ((key = "name" /\ h' = h /\ m' = object__setattr__ m "name" val) \/
   (key <> "name" /\
    exists v c,
      val = PyRef v /\ routing_table (cls (h v)) = Some c /\
      m' = attach c (Some key) v m /\
      h' = set_parent_module (set_name h v (Some key)) v (mod_addr m))).
Proof.
  intros Hu Hinit. unfold __setattr__, _assert_module_attr.
  rewrite Hu, Hinit. cbn [negb orb].
  destruct (bool_decide_reflect (key ∈ banned)) as [Hin | Hout]; [discriminate |].
  destruct (String.eqb_spec key "name") as [-> | Hname].
  { intros [= <- <-]. split; [exact Hout |]. left. auto. }
  destruct (_is_module_attr h val) eqn:Hattr; [| discriminate].
  destruct val as [| | | v]; try discriminate.
  apply _is_module_attr_routed in Hattr as [c Hc].
  cbn [negb bind as_ref].
  rewrite (_add_routed _ _ _ c) by (rewrite cls_set_name; exact Hc).
  rewrite name_set_name. cbn [bind fst snd]. intros [= <- <-].
  split; [exact Hout |]. right. split; [exact Hname |].
  exists v, c. auto.
Qed.

Lemma module_items_ok (items : list (string * PyVal)) (h0 h : Heap) (m : Module) :
  (forall b, cls (h b) = cls (h0 b)) ->
  getattr_initialized m = true ->
  is_ok (module_items h m items) = true
  <-> Forall (acceptable h0) (List.filter public items).
Proof.
  revert h m. induction items as [| [key val] items IH]; intros h m Hcls Hinit.
  { cbn. split; [intros _; constructor | reflexivity]. }
  cbn [module_items List.filter]. unfold public at 1. cbn [fst].
  destruct (startswith_dunder key) eqn:Hd.
  { rewrite (dunder_is_underscore key Hd). cbn [negb]. apply IH; assumption. }
  destruct (startswith_underscore key) eqn:Hu; cbn [negb];
    [apply IH; assumption |].
  rewrite Forall_cons. unfold acceptable at 1. cbn [fst snd].
  rewrite <- (_is_module_attr_cls h0 h val Hcls).
  destruct (__setattr__ h m key val) as [[h1 m1] | e] eqn:Hset.
  - destruct (__setattr__public h m key val h1 m1 Hu Hinit Hset)
      as [Hout [(-> & -> & ->) | (Hname & v & c & -> & Hc & -> & ->)]].
    + rewrite (IH h (object__setattr__ m "name" val) Hcls)
        by (rewrite getattr_initialized_name; exact Hinit).
      split; [intros HF; split; [split; [exact Hout | left; reflexivity] | exact HF]
             | intros [_ HF]; exact HF].
    + rewrite IH; cycle 1.
      * intros b. rewrite cls_set_parent_module, cls_set_name. apply Hcls.
      * rewrite getattr_initialized_attach. exact Hinit.
      * split; [| intros [_ HF]; exact HF].
        intros HF. split; [| exact HF]. split; [exact Hout |]. right.
        apply _is_module_attr_routed. eauto.
  - cbn [is_ok]. split; [discriminate |].
    intros [[Hout Hacc] _]. exfalso.
    destruct Hacc as [-> | Hattr].
    + unfold __setattr__ in Hset. rewrite Hinit in Hset. discriminate.
    + destruct val as [| | | v]; try discriminate.
      apply _is_module_attr_routed in Hattr as [c Hc].
      destruct (String.eqb_spec key "name") as [-> | Hname].
      { unfold __setattr__ in Hset. rewrite Hinit in Hset. discriminate. }
      rewrite (__setattr__routed h m key v c Hinit) in Hset;
        [discriminate | | exact Hc].
      unfold routed_key. rewrite Hu. cbn [negb andb].
      rewrite bool_decide_eq_false_2 by exact Hout. cbn [negb andb].
      apply negb_true_iff. apply String.eqb_neq. exact Hname.
Qed.

(** X19: converting a class body that inherits from [object] alone
    succeeds exactly when every public binding has a key that is not
    protected and is either the binding [name] or a module attribute. *)
Theorem class_body_accepted (h : Heap) (a : addr) (src : PyVal)
    (cls_name : string) (bases : list string) (cls_dict : list (string * PyVal)) :
  is_ok (module_decorator h a src cls_name bases cls_dict) = true
  <-> bases = ["object"] /\ Forall (acceptable h) (List.filter public cls_dict).
Proof.
  unfold module_decorator.
  destruct (bool_decide_reflect (bases = ["object"])) as [Hb | Hb]; cbn [negb].
  - rewrite (module_items_ok cls_dict h h) by reflexivity.
    split; [intros HF; split; assumption | intros [_ HF]; exact HF].
  - cbn. split; [discriminate | intros [Hb' _]; contradiction].
Qed.

(** What the loop of the decorator leaves in the namespace, from any
    constructed module on. *)
Lemma module_items_get (items : list (string * PyVal)) (h : Heap) (m : Module)
      (h' : Heap) (m' : Module) :
  getattr_initialized m = true ->
  NoDup (items.*1) ->
  module_items h m items = Ok (h', m') ->
  (forall k,
      get m' k = get m k \/
      exists val, (k, val) ∈ items /\ startswith_underscore k = false /\ k <> "name") /\
  (forall key v,
      (key, PyRef v) ∈ items ->
      startswith_underscore key = false ->
      key <> "name" ->
      get m' key = Some v).
Proof.
  revert h m. induction items as [| [key val] items IH]; intros h m Hinit Hnd Hrun.
  { cbn in Hrun. injection Hrun as <- <-. split; [left; reflexivity |].
    intros key v Hin. apply elem_of_nil in Hin. contradiction. }
  cbn [fmap list_fmap fst] in Hnd. apply NoDup_cons in Hnd as [Hfresh Hnd].
  assert (Hnokey : forall val', ~ (key, val') ∈ items).
  { intros val' Hin. apply Hfresh.
    apply (list_elem_of_fmap_2 fst) in Hin. exact Hin. }
  cbn [module_items] in Hrun.
  assert (Hdrop : startswith_underscore key = true ->
                  module_items h m items = Ok (h', m') ->
                  (forall k,
                      get m' k = get m k \/
                      exists val0, (k, val0) ∈ (key, val) :: items /\
                                   startswith_underscore k = false /\ k <> "name") /\
                  (forall key0 v,
                      (key0, PyRef v) ∈ (key, val) :: items ->
                      startswith_underscore key0 = false ->
                      key0 <> "name" ->
                      get m' key0 = Some v)).
  { intros Hu Hrest. destruct (IH h m Hinit Hnd Hrest) as [IH1 IH2]. split.
    - intros k. destruct (IH1 k) as [Heq | (val0 & Hin & Hrest')];
        [left; exact Heq |].
      right. exists val0. split; [right; exact Hin | exact Hrest'].
    - intros key0 v Hin Hu0 Hname.
      apply elem_of_cons in Hin as [[= -> _] | Hin]; [congruence |].
      apply IH2; assumption. }
  destruct (startswith_dunder key) eqn:Hd.
  { apply Hdrop; [apply dunder_is_underscore; exact Hd | exact Hrun]. }
  destruct (startswith_underscore key) eqn:Hu; [apply Hdrop; auto |].
  clear Hdrop.
  destruct (__setattr__ h m key val) as [[h1 m1] | e] eqn:Hset; [| discriminate].
  destruct (__setattr__public h m key val h1 m1 Hu Hinit Hset)
    as [_ [(-> & -> & ->) | (Hname & v0 & c & -> & Hc & -> & ->)]].
  - destruct (IH h (object__setattr__ m "name" val)
                ltac:(rewrite getattr_initialized_name; exact Hinit) Hnd Hrun)
      as [IH1 IH2].
    split.
    + intros k. destruct (IH1 k) as [Heq | (val0 & Hin & Hrest')];
        [left; exact Heq |].
      right. exists val0. split; [right; exact Hin | exact Hrest'].
    + intros key0 v Hin Hu0 Hname0.
      apply elem_of_cons in Hin as [[= -> _] | Hin]; [congruence |].
      apply IH2; assumption.
  - destruct (IH _ (attach c (Some key) v0 m)
                ltac:(rewrite getattr_initialized_attach; exact Hinit) Hnd Hrun)
      as [IH1 IH2].
    split.
    + intros k. destruct (IH1 k) as [Heq | (val0 & Hin & Hrest')].
      * destruct (decide (k = key)) as [-> | Hk].
        -- right. exists (PyRef v0). split; [left; reflexivity | auto].
        -- left. rewrite Heq. unfold get. rewrite namespace_attach.
           apply lookup_insert_ne. congruence.
      * right. exists val0. split; [right; exact Hin | exact Hrest'].
    + intros key0 v Hin Hu0 Hname0.
      apply elem_of_cons in Hin as [[= -> ->] | Hin]; [| apply IH2; assumption].
      destruct (IH1 key) as [Heq | (val0 & Hin & _)];
        [| destruct (Hnokey val0 Hin)].
      rewrite Heq. apply get_attach.
Qed.

(** X20: after a class body, whose keys are distinct, has been converted,
    [get] returns each public binding other than [name] under its key, and
    returns nothing under any other name: private bindings and the binding
    [name] are not in the namespace. *)
Theorem class_body_attached (h : Heap) (a : addr) (src : PyVal)
    (cls_name : string) (bases : list string) (cls_dict : list (string * PyVal))
    (h' : Heap) (m' : Module) :
  NoDup (cls_dict.*1) ->
  module_decorator h a src cls_name bases cls_dict = Ok (h', m') ->
  (forall key v,
      (key, PyRef v) ∈ cls_dict ->
      startswith_underscore key = false ->
      key <> "name" ->
      get m' key = Some v) /\
  (forall k,
      is_Some (get m' k) ->
      exists val, (k, val) ∈ cls_dict /\ startswith_underscore k = false /\ k <> "name").
Proof.
  intros Hnd Hrun. unfold module_decorator in Hrun.
  destruct (negb (bool_decide (bases = ["object"]))); [discriminate |].
  destruct (module_items_get cls_dict h (Module__init__ a (Some cls_name) src)
              h' m' eq_refl Hnd Hrun) as [H1 H2].
  split; [exact H2 |].
  intros k [v Hk].
  destruct (H1 k) as [Heq | Hex]; [| exact Hex].
  rewrite Heq in Hk. unfold get in Hk. cbn in Hk.
  rewrite lookup_empty in Hk. discriminate.
Qed.

(** A class body for the examples: a private scratch value, the signal at 3
    as [inp], the instance at 2 as [core]. *)
Lemma class_body_attached_witness :
  let body := [("__doc__", PyNone); ("_tmp", PyStr "scratch");
               ("inp", PyRef 3%positive); ("core", PyRef 2%positive)] in
  exists h' m',
    module_decorator example_heap 100%positive PyNone "M" ["object"] body
    = Ok (h', m') /\
    get m' "inp" = Some 3%positive /\
    get m' "core" = Some 2%positive /\
    get m' "_tmp" = None.
Proof.
  cbn zeta. eexists _, _. split; [reflexivity |].
  assert (Hnd : NoDup ([("__doc__", PyNone); ("_tmp", PyStr "scratch");
                        ("inp", PyRef 3%positive); ("core", PyRef 2%positive)].*1)).
  { apply (bool_decide_unpack _). reflexivity. }
  destruct (class_body_attached example_heap 100%positive PyNone "M" ["object"]
              _ _ _ Hnd eq_refl) as [Hget _].
  split; [apply Hget; [repeat constructor | reflexivity | discriminate] |].
  split; [apply Hget; [repeat constructor | reflexivity | discriminate] |].
  reflexivity.
Defined.

(** ** Qualified names, equality and hashing *)

(** X21: comparing two modules raises the unnamed-entity error exactly
    when one of them has no name, even if both have an import path, from
    which a qualified name exists; two named modules are equal exactly when
    their qualified names are; against anything that is no module the
    comparison is not implemented. *)
Theorem module_equality (self other : Named.t) :
  (Module__eq__ self (AModule other) = Err UnnamedEntity
   <-> Named.name self = None \/ Named.name other = None) /\
  (Module__eq__ self (AModule other) = Ok (Some true)
   <-> is_Some (Named.name self) /\ is_Some (Named.name other) /\
       _qualname self = _qualname other) /\
  (Module__eq__ self (AModule other) = Ok (Some false)
   <-> is_Some (Named.name self) /\ is_Some (Named.name other) /\
       _qualname self <> _qualname other) /\
  Module__eq__ self NotAModule = Ok None /\
  (forall path,
      Named._importpath self = Some path ->
      Named.name self = None ->
      _qualname self = Some (String.concat "." path) /\
      Module__eq__ self (AModule self) = Err UnnamedEntity).
Proof.
  unfold Module__eq__.
  destruct (Named.name self) as [n |] eqn:Hn,
           (Named.name other) as [n' |] eqn:Hn'.
  - destruct (bool_decide_reflect (_qualname self = _qualname other)) as [Heq | Hne].
    + repeat split; try discriminate; try (eexists; reflexivity); try assumption.
      * intros [H | H]; discriminate.
      * intros (_ & _ & H). contradiction.
    + repeat split; try discriminate; try (eexists; reflexivity); try assumption.
      * intros [H | H]; discriminate.
      * intros (_ & _ & H). contradiction.
  - repeat split; try discriminate; auto.
    + intros (_ & [x Hx] & _). discriminate.
    + intros (_ & [x Hx] & _). discriminate.
  - repeat split; try discriminate; auto.
    + intros ([x Hx] & _). discriminate.
    + intros ([x Hx] & _). discriminate.
    + unfold _qualname. rewrite H. reflexivity.
  - repeat split; try discriminate; auto.
    + intros ([x Hx] & _). discriminate.
    + intros ([x Hx] & _). discriminate.
    + unfold _qualname. rewrite H. reflexivity.
Qed.

(** X22: two modules that compare equal hash to the same value and pickle
    to the same state, whatever Python's [hash] is. *)
Theorem equal_modules_hash_alike (hash : option string -> Z) (self other : Named.t) :
  Module__eq__ self (AModule other) = Ok (Some true) ->
  exists z q,
    Module__hash__ hash self = Ok z /\
    Module__hash__ hash other = Ok z /\
    Module__getstate__ self = Ok q /\
    Module__getstate__ other = Ok q.
Proof.
  unfold Module__eq__, Module__hash__, Module__getstate__.
  destruct (Named.name self), (Named.name other); try discriminate.
  intros [= Heq]. apply bool_decide_eq_true in Heq. rewrite Heq.
  eexists _, _. repeat split.
Qed.

Lemma equal_modules_hash_alike_witness :
  let native := {| Named.name := Some "Amp"; Named._importpath := None;
                   Named.pymodule := Some "lib" |} in
  let other := {| Named.name := Some "Amp"; Named._importpath := None;
                  Named.pymodule := Some "lib" |} in
  exists z q,
    Module__hash__ (fun _ => 0%Z) native = Ok z /\
    Module__hash__ (fun _ => 0%Z) other = Ok z /\
    Module__getstate__ native = Ok q /\
    Module__getstate__ other = Ok q.
Proof.
  cbn zeta.
  apply (equal_modules_hash_alike (fun _ => 0%Z)).
  reflexivity.
Defined.

Lemma append_assoc (a b c : string) :
  String.append (String.append a b) c = String.append a (String.append b c).
Proof.
  induction a as [| x a IH]; [reflexivity |].
  change (String x (String.append (String.append a b) c)
          = String x (String.append a (String.append b c))).
  rewrite IH. reflexivity.
Qed.

Lemma concat_snoc (sep : string) (path : list string) (n : string) :
  path <> [] ->
  String.concat sep (path ++ [n])%list
  = String.append (String.concat sep path) (String.append sep n).
Proof.
  induction path as [| x path IH]; [congruence |]. intros _.
  destruct path as [| y path]; [reflexivity |].
  change (String.concat sep ((x :: y :: path) ++ [n]))
    with (String.append x (String.append sep (String.concat sep ((y :: path) ++ [n])))).
  rewrite IH by discriminate.
  change (String.concat sep (x :: y :: path))
    with (String.append x (String.append sep (String.concat sep (y :: path)))).
  rewrite !append_assoc. reflexivity.
Qed.

(** X23: an import path, when set, is the qualified name on its own: name
    and defining Python module play no role; without it a named module
    defined in no Python module is qualified by its bare name; and a module
    named [n] defined in the Python module whose dotted name spells a
    non-empty path has the qualified name of a module imported under that
    path followed by [n]. *)
Theorem import_path_decides (path : list string) (n : string)
    (x y : option string) :
  _qualname {| Named.name := x; Named._importpath := Some path; Named.pymodule := y |}
  = Some (String.concat "." path) /\
  _qualname {| Named.name := Some n; Named._importpath := None; Named.pymodule := None |}
  = Some n /\
  _qualname {| Named.name := None; Named._importpath := None; Named.pymodule := y |}
  = None /\
  (path <> [] ->
   _qualname {| Named.name := Some n; Named._importpath := None;
                Named.pymodule := Some (String.concat "." path) |}
   = _qualname {| Named.name := x; Named._importpath := Some (path ++ [n])%list;
                  Named.pymodule := y |}).
Proof.
  repeat split. intros Hne. unfold _qualname. cbn.
  rewrite concat_snoc by exact Hne. reflexivity.
Qed.

(** ** The ports of an external module *)

(** X24: the ports of an external module pass validation exactly when each
    of them has a name, which is not the empty string, and the visibility
    [PORT]; the only exception of the validation is the invalid-port
    error. *)
Theorem ports_validated (self : ExternalModule) :
  (ExternalModule__post_init_post_parse__ self = Ok tt
   <-> Forall valid_port (port_list self)) /\
  (forall e, ExternalModule__post_init_post_parse__ self = Err e -> e = InvalidPort).
Proof.
  unfold ExternalModule__post_init_post_parse__.
  induction (port_list self) as [| p ps [IH1 IH2]].
  { split; [split; [constructor | reflexivity] | discriminate]. }
  cbn [check_ports]. rewrite Forall_cons. unfold valid_port at 1.
  destruct (port_name p) as [n |].
  - destruct (String.eqb_spec n EmptyString) as [-> | Hn].
    + split; [split; [discriminate |] | intros e [= <-]; reflexivity].
      intros [[(n & [= <-] & Hn) _] _]. contradiction.
    + destruct (port_vis p).
      * split; [split; [discriminate |] | intros e [= <-]; reflexivity].
        intros [[_ H] _]. discriminate.
      * split; [| exact IH2]. rewrite IH1.
        split; [intros HF; split; [split; [eauto | reflexivity] | exact HF]
               | intros [_ HF]; exact HF].
  - split; [split; [discriminate |] | intros e [= <-]; reflexivity].
    intros [[(n & Hn & _) _] _]. discriminate.
Qed.

Lemma ports_snoc (l : list Port) (p : Port) :
  foldl (fun d q => <[port_name q := q]> d) (∅ : gmap (option string) Port)
    (l ++ [p])%list
  = <[port_name p := p]>
      (foldl (fun d q => <[port_name q := q]> d) (∅ : gmap (option string) Port) l).
Proof. rewrite foldl_snoc. reflexivity. Qed.

(** X25: the [ports] mapping of an external module holds ports of the list
    only, each under its own name, and a key for every port; a port that
    comes last in the list is the one found under its name, and when the
    names are distinct every port is found under its name.  Nothing refuses
    two ports of the same name: the later one replaces the earlier. *)
Theorem ports_by_name (self : ExternalModule) :
  (forall k p, ExternalModule_ports self !! k = Some p ->
               p ∈ port_list self /\ port_name p = k) /\
  (forall p, p ∈ port_list self ->
             is_Some (ExternalModule_ports self !! port_name p)) /\
  (forall l p, port_list self = (l ++ [p])%list ->
               ExternalModule_ports self !! port_name p = Some p) /\
  (NoDup (port_name <$> port_list self) ->
   forall p, p ∈ port_list self ->
             ExternalModule_ports self !! port_name p = Some p).
Proof.
  unfold ExternalModule_ports.
  split; [| split; [| split]].
  - induction (port_list self) as [| p l IH] using rev_ind.
    + intros k q Hq. cbn in Hq. rewrite lookup_empty in Hq. discriminate.
    + intros k q. rewrite ports_snoc, lookup_insert.
      destruct (decide (port_name p = k)) as [<- | Hk].
      * intros [= <-]. split; [| reflexivity].
        apply elem_of_app. right. constructor.
      * intros Hq. destruct (IH k q Hq) as [Hin Hname].
        split; [apply elem_of_app; left; exact Hin | exact Hname].
  - induction (port_list self) as [| p l IH] using rev_ind.
    + intros q Hq. apply elem_of_nil in Hq. contradiction.
    + intros q Hq. rewrite ports_snoc, lookup_insert.
      destruct (decide (port_name p = port_name q)); [eexists; reflexivity |].
      apply elem_of_app in Hq as [Hq | Hq]; [apply IH; exact Hq |].
      apply list_elem_of_singleton in Hq. congruence.
  - intros l p ->. rewrite ports_snoc. apply lookup_insert_eq.
  - induction (port_list self) as [| p l IH] using rev_ind.
    + intros _ q Hq. apply elem_of_nil in Hq. contradiction.
    + rewrite fmap_app. cbn [fmap list_fmap]. intros Hnd q Hq.
      apply NoDup_app in Hnd as (Hl & Hdisj & _).
      rewrite ports_snoc.
      apply elem_of_app in Hq as [Hq | Hq].
      * rewrite lookup_insert_ne; [apply IH; assumption |].
        intros Heq. apply (Hdisj (port_name q)).
        -- apply list_elem_of_fmap_2. exact Hq.
        -- rewrite Heq. constructor.
      * apply list_elem_of_singleton in Hq. subst q. apply lookup_insert_eq.
Qed.

(** ** Attribute retrieval *)

(** X26: what [__getattr__] returns after a value [v] has been attached
    under [n]: the value itself when [n] does not start with an underscore;
    when it does, which [add] allows, the namespace is not read and the
    plain lookup answers, although [get] finds the value; and for any key
    that [get] does not find, the plain lookup answers. *)
Theorem dot_access_after_attach {A : Type} (plain : Module -> string -> A)
    (attribute : addr -> A) (h : Heap) (m : Module) (op : Op) (v : addr)
    (n : string) (h' : Heap) (m' : Module) :
  attaches h m op v n ->
  run_op h m op = Ok (h', m') ->
  get m' n = Some v /\
  (startswith_underscore n = false ->
   __getattr__ plain attribute m' n = attribute v) /\
  (startswith_underscore n = true ->
   __getattr__ plain attribute m' n = plain m' n) /\
  (forall k, get m' k = None -> __getattr__ plain attribute m' k = plain m' k).
Proof.
  intros Hop Hrun.
  destruct (run_op_attaches_state h m op v n Hop) as (h0 & c & _ & _ & _ & Hrun').
  rewrite Hrun' in Hrun. injection Hrun as <- <-.
  assert (Hget : get (attach c (Some n) v m) n = Some v) by apply get_attach.
  split; [exact Hget |]. unfold __getattr__. split; [| split].
  - intros Hu. rewrite Hu. unfold get in Hget. rewrite Hget. reflexivity.
  - intros Hu. rewrite Hu. reflexivity.
  - intros k Hk. destruct (startswith_underscore k); [reflexivity |].
    unfold get in Hk. rewrite Hk. reflexivity.
Qed.

Lemma dot_access_after_attach_witness :
  let m' := attach Signals (Some "_hidden") 3%positive example_module in
  get m' "_hidden" = Some 3%positive /\
  __getattr__ (fun _ _ => None) Some m' "_hidden" = None.
Proof.
  cbn zeta.
  destruct (dot_access_after_attach (fun _ _ => None) Some
              example_heap example_module
              (OpAdd (PyRef 3%positive) (Some "_hidden")) 3%positive "_hidden" _ _
              (conj eq_refl (conj eq_refl (or_introl (conj eq_refl eq_refl))))
              eq_refl) as (Hget & _ & Hu & _).
  split; [exact Hget | exact (Hu eq_refl)].
Defined.

End ModuleExtras.
